(** * Retry mechanism with exponential backoff and circuit breaker

    A shallow embedding of the classes [RetryError],
    [ExponentialBackoffRetry], [CircuitBreaker] and [RetryMechanism] of
    the "Robust Retry Mechanism" example, and the properties of them
    that the specification states.

    Conventions of the embedding:
    - JavaScript numbers that count (retries, failures, attempts,
      millisecond time stamps) are integers [Z]; delays are exact
      rationals [Q], so [Math.pow], [Math.min] and the jitter product are
      computed without the rounding of IEEE doubles;
    - what an operation, a hook or a plugin method throws is an error
      object with a string message, or [null] or [undefined]; reading
      [error.message] of the latter two raises a [TypeError] where the
      code does so;
    - [async]/[await] code runs sequentially: an awaited call is a bind of
      a state-and-exception monad over the record [World];
    - [Date.now()] and [Math.random()] read the next value of an oracle
      carried by the world, so every theorem holds for every clock and
      every random source;
    - the [while (true)] loop of the retrier takes fuel; a computation
      that runs out of fuel is [None].

    The development goes on with the other classes of the examples: the
    dependency injection container [DIContainer], the [PluginManager] and
    the request log of the [AdaptiveRateLimiter].  A [Map] is the list of
    its entries in insertion order, a [Set] of functions the list of its
    members, and objects carry an identity where the code compares or
    shares them. *)

From Stdlib Require Import ZArith QArith Qminmax Qpower List String Bool Lia.
From Stdlib Require Import DecimalString.
Import ListNotations.

Open Scope string_scope.
Open Scope Z_scope.

(** ** JavaScript values used by the classes *)

(** Truthiness of a value, as [||] tests it. *)
Class Truthy (A : Type) := truthy : A -> bool.

#[global] Instance Truthy_Z : Truthy Z := fun z => negb (z =? 0).
#[global] Instance Truthy_Q : Truthy Q := fun q => negb (Qeq_bool q 0).
#[global] Instance Truthy_bool : Truthy bool := fun b => b.

(** [x || d] where [x] is a property of an options object: an absent
    property reads as [undefined], which is falsy. *)
Definition js_or {A : Type} `{Truthy A} (x : option A) (d : A) : A :=
  match x with
  | Some v => if truthy v then v else d
  | None => d
  end.

(** [`${n}`] for an integer. *)
Definition template_of_Z (n : Z) : string :=
  NilZero.string_of_int (Z.to_int n).

(** Error objects: a plain [Error] with its message, a [RetryError], or
    the [TypeError] the engine raises. *)
Inductive JsError : Type :=
| Error (message : string)
| RetryError (originalError : JsError) (attempts : Z) (duration : Z)
| TypeError (message : string).

(** [error.message]; the [RetryError] constructor calls
    [super(originalError.message)]. *)
Fixpoint message (e : JsError) : string :=
  match e with
  | Error m => m
  | RetryError original _ _ => message original
  | TypeError m => m
  end.

(** [error.name]. *)
Definition name (e : JsError) : string :=
  match e with
  | Error _ => "Error"
  | RetryError _ _ _ => "RetryError"
  | TypeError _ => "TypeError"
  end.

(** [null] and [undefined], the values that have no properties. *)
Inductive Nullish : Type := null_value | undefined_value.

(** What a [throw] or a rejected promise carries: an error object, or
    [null] or [undefined], the two values whose [message] cannot be
    read. *)
Inductive Thrown : Type :=
| thrown_error (e : JsError)
| thrown_nullish (v : Nullish).
Coercion thrown_error : JsError >-> Thrown.

(** The [TypeError] of reading a property of [null] or [undefined], with
    the message Node gives it. *)
Definition cannot_read (v : Nullish) (property : string) : JsError :=
  TypeError ("Cannot read properties of "
               ++ match v with
                  | null_value => "null"
                  | undefined_value => "undefined"
                  end
               ++ " (reading '" ++ property ++ "')").

(** What a caller passes for a parameter declared with a default value,
    as in [constructor(options = {})]: nothing or [undefined], for which
    the default is taken, or [null], or an object. *)
Inductive Argument (O : Type) : Type :=
| omitted
| passed_null
| passed (o : O).
Arguments omitted {O}.
Arguments passed_null {O}.
Arguments passed {O} o.

(** ** Objects *)

Record RetryOptions : Type := mkRetryOptions {
  opt_baseDelay : option Q;
  opt_maxDelay : option Q;
  opt_maxRetries : option Z;
  opt_jitter : option bool
}.

Record ExponentialBackoffRetryObj : Type := mkRetrier {
  baseDelay : Q;
  maxDelay : Q;
  maxRetries : Z;
  jitter : bool
}.

Record CircuitBreakerOptions : Type := mkCircuitBreakerOptions {
  opt_failureThreshold : option Z;
  opt_resetTimeout : option Z
}.

Inductive CircuitState : Type := CLOSED | OPEN | HALF_OPEN.

Record CircuitBreakerObj : Type := mkBreaker {
  failureThreshold : Z;
  resetTimeout : Z;
  failures : Z;
  state : CircuitState;
  lastFailureTime : option Z      (* [None] is [null] *)
}.

(** A logger object: the global [console] or one the caller supplies.
    Objects are truthy. *)
Inductive Logger : Type := console | custom_logger (id : string).

#[global] Instance Truthy_Logger : Truthy Logger := fun _ => true.

(** The caller's context object, passed through to the logger. *)
Definition Context : Type := list (string * string).

Inductive LogLevel : Type := level_info | level_error.

(** One call of [logger.info] or [logger.error] with its argument. *)
Record LogEvent : Type := mkLogEvent {
  ev_level : LogLevel;
  ev_logger : Logger;
  ev_event : string;
  ev_context : Context;
  ev_attempts : Z;
  ev_duration : option Z;
  ev_error : option string
}.

Record RetryMechanismOptions : Type := mkRetryMechanismOptions {
  opt_retry : option RetryOptions;
  opt_circuitBreaker : option CircuitBreakerOptions;
  opt_logger : option Logger
}.

Record RetryMechanismObj : Type := mkRetryMechanism {
  retrier : ExponentialBackoffRetryObj;
  circuitBreaker : CircuitBreakerObj;
  logger : Logger
}.

(** ** The world a call runs in *)

Record World : Type := mkWorld {
  clock : nat -> Z;          (* the successive readings of [Date.now()] *)
  ticks : nat;               (* how many of them were read *)
  random : nat -> Q;         (* the successive draws of [Math.random()] *)
  draws : nat;               (* how many of them were drawn *)
  calls : nat;               (* invocations of the protected operation *)
  timers : list Q;           (* the delays given to [setTimeout], in order *)
  breaker : CircuitBreakerObj;   (* the fields of [this.circuitBreaker] *)
  attempts : Z;              (* [let attempts] of the running
                                [RetryMechanism.execute]; calls do not
                                overlap, so one cell serves them all *)
  sink : list LogEvent       (* what the logger received, in order *)
}.

Definition set_ticks (n : nat) (w : World) : World :=
  mkWorld (clock w) n (random w) (draws w) (calls w) (timers w)
          (breaker w) (attempts w) (sink w).
Definition set_draws (n : nat) (w : World) : World :=
  mkWorld (clock w) (ticks w) (random w) n (calls w) (timers w)
          (breaker w) (attempts w) (sink w).
Definition set_calls (n : nat) (w : World) : World :=
  mkWorld (clock w) (ticks w) (random w) (draws w) n (timers w)
          (breaker w) (attempts w) (sink w).
Definition set_timers (l : list Q) (w : World) : World :=
  mkWorld (clock w) (ticks w) (random w) (draws w) (calls w) l
          (breaker w) (attempts w) (sink w).
Definition set_breaker (b : CircuitBreakerObj) (w : World) : World :=
  mkWorld (clock w) (ticks w) (random w) (draws w) (calls w) (timers w)
          b (attempts w) (sink w).
Definition set_attempts (n : Z) (w : World) : World :=
  mkWorld (clock w) (ticks w) (random w) (draws w) (calls w) (timers w)
          (breaker w) n (sink w).
Definition set_sink (l : list LogEvent) (w : World) : World :=
  mkWorld (clock w) (ticks w) (random w) (draws w) (calls w) (timers w)
          (breaker w) (attempts w) l.

Definition set_failures (n : Z) (b : CircuitBreakerObj) : CircuitBreakerObj :=
  mkBreaker (failureThreshold b) (resetTimeout b) n (state b)
            (lastFailureTime b).
Definition set_state (s : CircuitState) (b : CircuitBreakerObj)
  : CircuitBreakerObj :=
  mkBreaker (failureThreshold b) (resetTimeout b) (failures b) s
            (lastFailureTime b).
Definition set_lastFailureTime (t : option Z) (b : CircuitBreakerObj)
  : CircuitBreakerObj :=
  mkBreaker (failureThreshold b) (resetTimeout b) (failures b) (state b) t.

(** ** The monad of calls *)

(** How a call completes: it returns a value or throws. *)
Inductive Completion (A : Type) : Type :=
| Return (a : A)
| Throw (e : Thrown).
Arguments Return {A} a.
Arguments Throw {A} e.

(** [error.message] for a caught value: reading it of [null] or
    [undefined] throws. *)
Definition message_of (error : Thrown) : Completion string :=
  match error with
  | thrown_error e => Return (message e)
  | thrown_nullish v => Throw (cannot_read v "message")
  end.

(** [new RetryError(originalError, attempts, duration)]: the constructor
    reads [originalError.message] for [super]. *)
Definition new_RetryError (originalError : Thrown) (attempts duration : Z)
  : Completion JsError :=
  match originalError with
  | thrown_error e => Return (RetryError e attempts duration)
  | thrown_nullish v => Throw (cannot_read v "message")
  end.

Definition M (A : Type) : Type := World -> option (Completion A * World).

Definition ret {A : Type} (a : A) : M A := fun w => Some (Return a, w).

Definition throw {A : Type} (e : Thrown) : M A := fun w => Some (Throw e, w).

Definition bind {A B : Type} (m : M A) (k : A -> M B) : M B :=
  fun w =>
    match m w with
    | None => None
    | Some (Return a, w') => k a w'
    | Some (Throw e, w') => Some (Throw e, w')
    end.

(** [try { body } catch (error) { handler }]. *)
Definition try_catch {A : Type} (body : M A) (handler : Thrown -> M A) : M A :=
  fun w =>
    match body w with
    | None => None
    | Some (Return a, w') => Some (Return a, w')
    | Some (Throw e, w') => handler e w'
    end.

Definition gets {A : Type} (f : World -> A) : M A := fun w => Some (Return (f w), w).

Definition modify (f : World -> World) : M unit := fun w => Some (Return tt, f w).

(** An expression that completes without touching the world. *)
Definition lift {A : Type} (c : Completion A) : M A := fun w => Some (c, w).

Declare Scope js_scope.
Delimit Scope js_scope with js.
Notation "x <- m ;; k" := (bind m (fun x => k))
  (at level 61, m at next level, right associativity) : js_scope.
Notation "m ;; k" := (bind m (fun _ => k))
  (at level 61, right associativity) : js_scope.
Open Scope js_scope.

(** [Date.now()]. *)
Definition Date_now : M Z :=
  fun w => Some (Return (clock w (ticks w)), set_ticks (S (ticks w)) w).

(** [Math.random()]. *)
Definition Math_random : M Q :=
  fun w => Some (Return (random w (draws w)), set_draws (S (draws w)) w).

(** A number read from a field that may hold [null]: [null] counts as 0. *)
Definition to_number (t : option Z) : Z :=
  match t with Some z => z | None => 0 end.

(** The protected operation: what its k-th invocation (from 0) produces. *)
Definition Operation (A : Type) : Type := nat -> Completion A.

(** [fn()] for a protected operation. *)
Definition invoke {A : Type} (op : Operation A) : M A :=
  fun w => Some (op (calls w), set_calls (S (calls w)) w).

(** ** class ExponentialBackoffRetry *)

Module ExponentialBackoffRetry.

Definition no_options : RetryOptions := mkRetryOptions None None None None.

(** [constructor(options = {})]. *)
Definition constructor (options : option RetryOptions)
  : ExponentialBackoffRetryObj :=
  let options := match options with Some o => o | None => no_options end in
  {| baseDelay := js_or (opt_baseDelay options) (1000 # 1)%Q;
     maxDelay := js_or (opt_maxDelay options) (30000 # 1)%Q;
     maxRetries := js_or (opt_maxRetries options) 5;
     jitter := js_or (opt_jitter options) true |}.

(** [new ExponentialBackoffRetry(options)].  The default [{}] is taken
    for an omitted or [undefined] argument only: of [null] the first
    assignment cannot read [baseDelay].  The constructor has no [throw]
    statement, so in the other cases the expression completes with the
    object. *)
Definition new (options : Argument RetryOptions)
  : Completion ExponentialBackoffRetryObj :=
  match options with
  | omitted => Return (constructor None)
  | passed_null => Throw (cannot_read null_value "baseDelay")
  | passed o => Return (constructor (Some o))
  end.

(** [wait(ms)]: the promise resolves when the timer fires. *)
Definition wait (ms : Q) : M unit :=
  modify (fun w => set_timers (timers w ++ [ms]) w).

(** [calculateDelay(retryCount)]. *)
Definition calculateDelay (self : ExponentialBackoffRetryObj)
    (retryCount : Z) : M Q :=
  let delay := Qmin (maxDelay self) ((2 ^ retryCount) * baseDelay self)%Q in
  if jitter self then
    r <- Math_random ;;
    ret (delay * ((1 # 2) + r))%Q
  else
    ret delay.

(** One turn of the [while (true)] loop of [execute], then the rest of
    the loop with one unit of fuel less. *)
Fixpoint loop {A : Type} (fuel : nat) (self : ExponentialBackoffRetryObj)
    (fn : M A) (retries : Z) : M A :=
  match fuel with
  | O => fun _ => None
  | S fuel' =>
      try_catch fn (fun error =>
        if retries >=? maxRetries self then
          text <- lift (message_of error) ;;
          throw (Error ("Failed after " ++ template_of_Z retries
                          ++ " retries: " ++ text))
        else
          delay <- calculateDelay self retries ;;
          wait delay ;;
          loop fuel' self fn (retries + 1))
  end.

(** [execute(fn)]: [let retries = 0] and the loop. *)
Definition execute {A : Type} (fuel : nat)
    (self : ExponentialBackoffRetryObj) (fn : M A) : M A :=
  loop fuel self fn 0.

End ExponentialBackoffRetry.

(** ** class CircuitBreaker *)

Module CircuitBreaker.

Definition no_options : CircuitBreakerOptions :=
  mkCircuitBreakerOptions None None.

(** [constructor(options = {})]. *)
Definition constructor (options : option CircuitBreakerOptions)
  : CircuitBreakerObj :=
  let options := match options with Some o => o | None => no_options end in
  {| failureThreshold := js_or (opt_failureThreshold options) 5;
     resetTimeout := js_or (opt_resetTimeout options) 60000;
     failures := 0;
     state := CLOSED;
     lastFailureTime := None |}.

Definition this {A : Type} (field : CircuitBreakerObj -> A) : M A :=
  gets (fun w => field (breaker w)).

Definition assign (f : CircuitBreakerObj -> CircuitBreakerObj) : M unit :=
  modify (fun w => set_breaker (f (breaker w)) w).

Definition open_error : JsError := Error "Circuit breaker is OPEN".

(** The first statement of [execute]: the test of [this.state === 'OPEN']. *)
Definition gate : M unit :=
  st <- this state ;;
  match st with
  | OPEN =>
      now <- Date_now ;;
      last <- this lastFailureTime ;;
      timeout <- this resetTimeout ;;
      if now - to_number last >=? timeout then
        assign (set_state HALF_OPEN)
      else
        throw open_error
  | _ => ret tt
  end.

(** The [try] block of [execute]. *)
Definition attempt {A : Type} (fn : M A) : M A :=
  result <- fn ;;
  st <- this state ;;
  match st with
  | HALF_OPEN =>
      assign (set_state CLOSED) ;;
      assign (set_failures 0)
  | _ => ret tt
  end ;;
  ret result.

(** The [catch] block of [execute]. *)
Definition on_error {A : Type} (error : Thrown) : M A :=
  assign (fun b => set_failures (failures b + 1) b) ;;
  now <- Date_now ;;
  assign (set_lastFailureTime (Some now)) ;;
  count <- this failures ;;
  threshold <- this failureThreshold ;;
  (if count >=? threshold then assign (set_state OPEN) else ret tt) ;;
  throw error.

(** [execute(fn)]. *)
Definition execute {A : Type} (fn : M A) : M A :=
  gate ;;
  try_catch (attempt fn) on_error.

End CircuitBreaker.

(** ** class RetryMechanism *)

Module RetryMechanism.

Definition no_options : RetryMechanismOptions :=
  mkRetryMechanismOptions None None None.

(** [constructor(options = {})]; the logger defaults to [console]. *)
Definition constructor (options : option RetryMechanismOptions)
  : RetryMechanismObj :=
  let options := match options with Some o => o | None => no_options end in
  {| retrier := ExponentialBackoffRetry.constructor (opt_retry options);
     circuitBreaker := CircuitBreaker.constructor (opt_circuitBreaker options);
     logger := js_or (opt_logger options) console |}.

Definition emit (e : LogEvent) : M unit :=
  modify (fun w => set_sink (sink w ++ [e]) w).

(** [logSuccess(context, attempts, startTime)]. *)
Definition logSuccess (self : RetryMechanismObj) (context : Context)
    (attempts : Z) (startTime : Z) : M unit :=
  now <- Date_now ;;
  emit {| ev_level := level_info;
          ev_logger := logger self;
          ev_event := "retry_success";
          ev_context := context;
          ev_attempts := attempts;
          ev_duration := Some (now - startTime);
          ev_error := None |}.

(** [logFailure(context, attempts, error)]: the object is built, and
    [error.message] read, before [logger.error] is called. *)
Definition logFailure (self : RetryMechanismObj) (context : Context)
    (attempts : Z) (error : Thrown) : M unit :=
  text <- lift (message_of error) ;;
  emit {| ev_level := level_error;
          ev_logger := logger self;
          ev_event := "retry_failure";
          ev_context := context;
          ev_attempts := attempts;
          ev_duration := None;
          ev_error := Some text |}.

(** The function handed to the retrier: one counted, logged attempt. *)
Definition attempt {A : Type} (self : RetryMechanismObj) (fn : M A)
    (context : Context) (startTime : Z) : M A :=
  modify (fun w => set_attempts (attempts w + 1) w) ;;
  try_catch
    (result <- fn ;;
     n <- gets attempts ;;
     logSuccess self context n startTime ;;
     ret result)
    (fun error =>
       n <- gets attempts ;;
       logFailure self context n error ;;
       throw error).

(** [execute(fn, context = {})]. *)
Definition execute {A : Type} (fuel : nat) (self : RetryMechanismObj)
    (fn : M A) (context : Context) : M A :=
  startTime <- Date_now ;;
  modify (set_attempts 0) ;;
  try_catch
    (CircuitBreaker.execute
       (ExponentialBackoffRetry.execute fuel (retrier self)
          (attempt self fn context startTime)))
    (fun error =>
       n <- gets attempts ;;
       now <- Date_now ;;
       retryError <- lift (new_RetryError error n (now - startTime)) ;;
       throw retryError).

End RetryMechanism.

(** ** Top-level calls *)

(** The world in which a freshly constructed [RetryMechanism] (or a lone
    [CircuitBreaker]) starts to serve calls. *)
Definition boot (clock : nat -> Z) (random : nat -> Q)
    (b : CircuitBreakerObj) : World :=
  {| clock := clock; ticks := 0; random := random; draws := 0; calls := 0;
     timers := []; breaker := b; attempts := 0; sink := [] |}.

(** A caller makes the calls one after the other and keeps how each one
    completed. *)
Fixpoint run_calls {A : Type} (cs : list (M A)) (w : World)
  : option (list (Completion A) * World) :=
  match cs with
  | [] => Some ([], w)
  | c :: cs' =>
      match c w with
      | None => None
      | Some (r, w') =>
          match run_calls cs' w' with
          | None => None
          | Some (rs, w'') => Some (r :: rs, w'')
          end
      end
  end.

(** ** Definitions used to state the properties *)

(** An operation that fails on every invocation; [errs k] is the error of
    invocation [k]. *)
Definition failing {A : Type} (errs : nat -> JsError) : Operation A :=
  fun k => Throw (errs k).

Definition is_throw {A : Type} (c : Completion A) : bool :=
  match c with Throw _ => true | Return _ => false end.

(** How many of the [n] invocations from invocation [c] on fail. *)
Fixpoint failed_among {A : Type} (op : Operation A) (c n : nat) : Z :=
  match n with
  | O => 0
  | S n' => (if is_throw (op c) then 1 else 0) + failed_among op (S c) n'
  end.

(** The world after [calculateDelay(retries)] and [wait(delay)]. *)
Definition pause (self : ExponentialBackoffRetryObj) (retries : Z)
    (w : World) : World :=
  let delay := Qmin (maxDelay self) ((2 ^ retries) * baseDelay self)%Q in
  if jitter self then
    set_timers
      (timers w ++ [(delay * ((1 # 2) + random w (draws w)))%Q])
      (set_draws (S (draws w)) w)
  else
    set_timers (timers w ++ [delay]) w.

(** The breaker after the [catch] block of [CircuitBreaker.execute] ran at
    time [now]. *)
Definition record_failure (now : Z) (b : CircuitBreakerObj)
  : CircuitBreakerObj :=
  let b' := set_lastFailureTime (Some now) (set_failures (failures b + 1) b) in
  if failures b' >=? failureThreshold b' then set_state OPEN b' else b'.

(** The event names the logger can receive. *)
Definition emitted_name (e : LogEvent) : Prop :=
  ev_event e = "retry_failure" \/ ev_event e = "retry_success".

(** The event names the specification lists for the telemetry sink. *)
Definition spec_event_name (s : string) : Prop :=
  s = "attempt_failure" \/ s = "retry_success" \/ s = "retry_exhausted".

(** The message of the error the retrier throws when it gives up. *)
Definition exhausted_message (retries : Z) (last : JsError) : string :=
  "Failed after " ++ template_of_Z retries ++ " retries: " ++ message last.

(** The object [logFailure] hands to [logger.error]. *)
Definition failure_event (self : RetryMechanismObj) (context : Context)
    (n : Z) (e : JsError) : LogEvent :=
  mkLogEvent level_error (logger self) "retry_failure" context n None
             (Some (message e)).

(** The object [logSuccess] hands to [logger.info]. *)
Definition success_event (self : RetryMechanismObj) (context : Context)
    (n : Z) (duration : Z) : LogEvent :=
  mkLogEvent level_info (logger self) "retry_success" context n
             (Some duration) None.

(** The world after an attempt of [RetryMechanism.execute] in which the
    operation threw [e]. *)
Definition after_failure (self : RetryMechanismObj) (context : Context)
    (e : JsError) (w : World) : World :=
  set_sink (sink w ++ [failure_event self context (attempts w + 1) e])
    (set_calls (S (calls w)) (set_attempts (attempts w + 1) w)).

(** The world after an attempt in which the operation returned. *)
Definition after_success (self : RetryMechanismObj) (context : Context)
    (startTime : Z) (w : World) : World :=
  set_sink
    (sink w ++ [success_event self context (attempts w + 1)
                  (clock w (ticks w) - startTime)])
    (set_ticks (S (ticks w))
       (set_calls (S (calls w)) (set_attempts (attempts w + 1) w))).

(** The world after an attempt in which the operation threw [t]: nothing
    is logged for [null] or [undefined], whose message cannot be read. *)
Definition after_rejection (self : RetryMechanismObj) (context : Context)
    (t : Thrown) (w : World) : World :=
  match t with
  | thrown_error e => after_failure self context e w
  | thrown_nullish _ =>
      set_calls (S (calls w)) (set_attempts (attempts w + 1) w)
  end.

(** What [k] failed attempts and the pauses after them change in a world:
    the invocation count and the [attempts] variable. *)
Definition attempts_made (w0 : World) (k : nat) (w : World) : Prop :=
  calls w = (calls w0 + k)%nat /\
  attempts w = attempts w0 + Z.of_nat k /\
  breaker w = breaker w0 /\
  ticks w = ticks w0 /\
  clock w = clock w0 /\
  random w = random w0.

(** An invocation whose outcome has a message to report, or is a return:
    every outcome but a rejection with [null] or [undefined]. *)
Definition reportable {A : Type} (c : Completion A) : bool :=
  match c with
  | Throw (thrown_nullish _) => false
  | _ => true
  end.

(** How many of the [n] invocations from invocation [c] on are
    reportable. *)
Fixpoint reported_among {A : Type} (op : Operation A) (c n : nat) : nat :=
  match n with
  | O => O
  | S n' => (if reportable (op c) then 1 else 0) + reported_among op (S c) n'
  end.

(** The error that leaves an attempt of [RetryMechanism.execute] whose
    operation threw [t]: [t] itself, or the [TypeError] of reading the
    message of [null] or [undefined]. *)
Definition entering (t : Thrown) : JsError :=
  match t with
  | thrown_error e => e
  | thrown_nullish v => cannot_read v "message"
  end.

(** Between [w] and [w'] the operation [op] was invoked some [n] times
    and the logger received events, all named [retry_failure] or
    [retry_success], one for each reportable invocation. *)
Definition logged {A : Type} (op : Operation A) (w w' : World) : Prop :=
  exists evs n,
    sink w' = (sink w ++ evs)%list /\
    Forall emitted_name evs /\
    calls w' = (calls w + n)%nat /\
    List.length evs = reported_among op (calls w) n.

(** Between [w] and [w'] nothing was logged and the operation was not
    invoked. *)
Definition quiet (w w' : World) : Prop :=
  sink w' = sink w /\ calls w' = calls w.

(** An operation that throws on every invocation; [ts k] is what
    invocation [k] throws, an error object or not. *)
Definition rejecting {A : Type} (ts : nat -> Thrown) : Operation A :=
  fun k => Throw (ts k).

(** The breaker turns away a call of [RetryMechanism.execute] begun in
    world [w]: it is Open, and at the clock reading after the one for the
    start time less than [resetTimeout] has passed since the last
    failure. *)
Definition turned_away (w : World) : bool :=
  match state (breaker w) with
  | OPEN =>
      negb (clock w (S (ticks w)) - to_number (lastFailureTime (breaker w))
            >=? resetTimeout (breaker w))
  | _ => false
  end.

(** How often the gate of the breaker reads the clock: once when the
    breaker is Open. *)
Definition gate_reads (w : World) : nat :=
  match state (breaker w) with OPEN => 1 | _ => 0 end.

(** A clock that advances one second between readings, a constant random
    source and an operation that always throws [new Error('boom')], for
    the concrete runs. *)
Definition sample_clock : nat -> Z := fun n => 1000 * Z.of_nat n.
Definition sample_random : nat -> Q := fun _ => (1 # 4)%Q.
Definition boom : Operation string := failing (fun _ => Error "boom").

(** [new RetryMechanism()] and the world it starts in. *)
Definition default_mechanism : RetryMechanismObj :=
  RetryMechanism.constructor None.
Definition sample_world : World :=
  boot sample_clock sample_random (circuitBreaker default_mechanism).

(** An operation that fails on its even invocations and succeeds on the
    odd ones. *)
Definition flaky : Operation string :=
  fun k => if Nat.even k then Throw (Error "boom") else Return "ok".

(** An operation that rejects with [null] on its first invocation, with
    an error object on its second and returns afterwards. *)
Definition moody : Operation string :=
  fun k =>
    match k with
    | O => Throw (thrown_nullish null_value)
    | S O => Throw (Error "boom")
    | _ => Return "ok"
    end.

(** ** Definitions for the further properties of the retry classes *)

(** A breaker between two calls: it is not HalfOpen, and it is Open only
    with at least [failureThreshold] failures counted. *)
Definition settled (b : CircuitBreakerObj) : Prop :=
  state b <> HALF_OPEN /\
  (state b = OPEN -> failureThreshold b <= failures b).

(** An operation that throws on its first [k] invocations and returns
    afterwards. *)
Definition fails_then (k : nat) : Operation string :=
  fun i => if (i <? k)%nat then Throw (Error "boom") else Return "ok".

(** The delay waited after failed attempt [i] (from 0) of a loop that
    started with [retries] in world [w]: the capped exponential delay,
    under jitter times 0.5 plus the [i]-th draw from [w] on. *)
Definition waited (self : ExponentialBackoffRetryObj) (retries : Z)
    (w : World) (i : nat) : Q :=
  let delay :=
    Qmin (maxDelay self) ((2 ^ (retries + Z.of_nat i)) * baseDelay self)%Q in
  if jitter self then
    (delay * ((1 # 2) + random w (draws w + i)%nat))%Q
  else delay.

(** What [j] failed attempts of [RetryMechanism.execute] and the pauses
    after them change in a world, timers included. *)
Definition retried (w0 : World) (j : nat) (w : World) : Prop :=
  attempts_made w0 j w /\
  List.length (timers w) = (List.length (timers w0) + j)%nat.

(** ** JavaScript maps and computations over other states *)

(** A [Map] with string keys: the entries in insertion order, each key
    once. *)
Definition JsMap (V : Type) : Type := list (string * V).

(** [map.get(key)]; [None] is [undefined]. *)
Fixpoint map_get {V : Type} (key : string) (m : JsMap V) : option V :=
  match m with
  | [] => None
  | (k, v) :: m' => if String.eqb key k then Some v else map_get key m'
  end.

(** [map.has(key)]. *)
Definition map_has {V : Type} (key : string) (m : JsMap V) : bool :=
  match map_get key m with Some _ => true | None => false end.

(** [map.set(key, value)]: an existing key keeps its place. *)
Fixpoint map_set {V : Type} (key : string) (value : V) (m : JsMap V)
  : JsMap V :=
  match m with
  | [] => [(key, value)]
  | (k, v) :: m' =>
      if String.eqb key k then (k, value) :: m'
      else (k, v) :: map_set key value m'
  end.

(** [map.delete(key)]: the entry of the key leaves the map. *)
Definition map_delete {V : Type} (key : string) (m : JsMap V) : JsMap V :=
  filter (fun entry => negb (String.eqb key (fst entry))) m.

(** A computation over a state [S] that completes, or runs out of fuel. *)
Definition St (S A : Type) : Type := S -> option (Completion A * S).

(** [array.map(f)] for a callback that runs in the state and may throw:
    the elements are visited in order and a throw ends the visit. *)
Fixpoint Array_map {S X Y : Type} (f : X -> St S Y) (l : list X) : St S (list Y) :=
  fun s =>
    match l with
    | [] => Some (Return [], s)
    | x :: l' =>
        match f x s with
        | None => None
        | Some (Throw e, s1) => Some (Throw e, s1)
        | Some (Return y, s1) =>
            match Array_map f l' s1 with
            | None => None
            | Some (Throw e, s2) => Some (Throw e, s2)
            | Some (Return ys, s2) => Some (Return (y :: ys), s2)
            end
        end
    end.

(** ** class DIContainer *)

(** An object made by [new Implementation(...dependencies)]: its identity,
    its class and the arguments its constructor received.  The constructors
    of the registered classes are taken to keep their arguments and not to
    throw. *)
#[warnings="-register-all"]
Inductive Instance : Type :=
| mkInstance (oid : nat) (class_name : string) (args : list Instance).

Definition oid (i : Instance) : nat :=
  match i with mkInstance n _ _ => n end.
Definition class_of (i : Instance) : string :=
  match i with mkInstance _ c _ => c end.
Definition args_of (i : Instance) : list Instance :=
  match i with mkInstance _ _ a => a end.

(** An entry of [this.services]. *)
Record Service : Type := mkService {
  Implementation : string;
  dependencies : list string;
  singleton : bool
}.

Record DIContainerObj : Type := mkDIContainer {
  services : JsMap Service;
  singletons : JsMap Instance;
  allocated : nat            (* objects made so far: the next identity *)
}.

Module DIContainer.

(** [constructor()]; [n] objects exist already. *)
Definition constructor (n : nat) : DIContainerObj :=
  {| services := []; singletons := []; allocated := n |}.

(** [register(name, Implementation, dependencies = [])]; the container
    returned is [this]. *)
Definition register (name : string) (Impl : string)
    (deps : option (list string)) (this : DIContainerObj) : DIContainerObj :=
  let deps := match deps with Some d => d | None => [] end in
  {| services := map_set name (mkService Impl deps false) (services this);
     singletons := singletons this;
     allocated := allocated this |}.

(** [registerSingleton(name, Implementation, dependencies = [])]. *)
Definition registerSingleton (name : string) (Impl : string)
    (deps : option (list string)) (this : DIContainerObj) : DIContainerObj :=
  let deps := match deps with Some d => d | None => [] end in
  {| services := map_set name (mkService Impl deps true) (services this);
     singletons := singletons this;
     allocated := allocated this |}.

Definition not_registered (name : string) : JsError :=
  Error ("Service " ++ name ++ " not registered").

(** [new service.Implementation(...dependencies)], and
    [this.singletons.set(name, instance)] for a singleton. *)
Definition construct (name : string) (service : Service)
    (deps : list Instance) (this : DIContainerObj)
  : Completion Instance * DIContainerObj :=
  let instance := mkInstance (allocated this) (Implementation service) deps in
  (Return instance,
   {| services := services this;
      singletons := if singleton service
                    then map_set name instance (singletons this)
                    else singletons this;
      allocated := S (allocated this) |}).

(** [resolve(name)]; the recursion through the dependencies takes fuel.
    For a singleton [has(name)] and [get(name)] are one lookup. *)
Fixpoint resolve (fuel : nat) (name : string) : St DIContainerObj Instance :=
  fun this =>
    match fuel with
    | O => None
    | S fuel' =>
        match map_get name (services this) with
        | None => Some (Throw (not_registered name), this)
        | Some service =>
            match (if singleton service
                   then map_get name (singletons this) else None) with
            | Some instance => Some (Return instance, this)
            | None =>
                match Array_map (resolve fuel') (dependencies service) this with
                | None => None
                | Some (Throw e, this') => Some (Throw e, this')
                | Some (Return deps, this') =>
                    Some (construct name service deps this')
                end
            end
        end
    end.

End DIContainer.

(** The container of the example: two singletons and an order service
    that depends on both. *)
Definition example_container : DIContainerObj :=
  DIContainer.register "orderService" "OrderService"
    (Some ["emailService"; "paymentService"])
    (DIContainer.registerSingleton "paymentService" "PaymentService" None
       (DIContainer.registerSingleton "emailService" "EmailService" None
          (DIContainer.constructor 0))).

(** A ranking of the service names under which every dependency of a
    registered service is registered and ranks below it: the dependency
    graph has no cycle and no missing service. *)
Definition acyclic (svcs : JsMap Service) (rank : string -> nat) : Prop :=
  forall name s,
    map_get name svcs = Some s ->
    Forall (fun d => (rank d < rank name)%nat /\ map_get d svcs <> None)
           (dependencies s).

(** What a resolution may change in a container: nothing is registered or
    unregistered, objects are only added, and a cached singleton stays the
    one it is. *)
Definition grows (c c' : DIContainerObj) : Prop :=
  services c' = services c /\
  (allocated c <= allocated c')%nat /\
  forall k i, map_get k (singletons c) = Some i ->
              map_get k (singletons c') = Some i.

Definition example_rank (name : string) : nat :=
  if String.eqb name "orderService" then 1 else 0.

(** ** class PluginManager *)

(** Values a hook may produce; [js_null] is also what [executeHook] records
    for a hook that threw. *)
Inductive JsValue : Type :=
| js_undefined
| js_null
| js_string (s : string)
| js_number (z : Z).

(** A hook function: the identity of the function object, by which a [Set]
    tells functions apart, and what a call with given arguments completes
    with. *)
Record Hook : Type := mkHook {
  hook_id : nat;
  hook_fn : list JsValue -> Completion JsValue
}.

(** A plugin object.  [initialize] and [shutdown] are present when the
    property is a function, and give what awaiting the call completes
    with; [hooks] lists the entries of [plugin.hooks] in property order. *)
Record Plugin : Type := mkPlugin {
  plugin_name : option string;
  version : option string;
  initialize : option (Completion unit);
  shutdown : option (Completion unit);
  hooks : option (list (string * Hook))
}.

Inductive ConsoleLine : Type :=
| console_log (line : string)
| console_error (line : string).

Record PluginManagerObj : Type := mkPluginManager {
  plugins : JsMap Plugin;             (* [#plugins] *)
  hook_sets : JsMap (list Hook);      (* [#hooks]: a [Set] is the list of its
                                         members in insertion order, each
                                         function once *)
  console_out : list ConsoleLine
}.

(** [!value] for a property that holds a string or is absent. *)
Definition falsy (value : option string) : bool :=
  match value with
  | None => true
  | Some s => match s with EmptyString => true | _ => false end
  end.

(** [`${value}`] for such a property. *)
Definition template_of (value : option string) : string :=
  match value with Some s => s | None => "undefined" end.

Definition same_function (h h' : Hook) : bool :=
  Nat.eqb (hook_id h) (hook_id h').

(** [set.add(fn)]. *)
Definition set_add (fn : Hook) (s : list Hook) : list Hook :=
  if existsb (same_function fn) s then s else (s ++ [fn])%list.

(** [set.delete(fn)]. *)
Definition set_delete (fn : Hook) (s : list Hook) : list Hook :=
  filter (fun h => negb (same_function fn h)) s.

Module PluginManager.

Definition new : PluginManagerObj :=
  {| plugins := []; hook_sets := []; console_out := [] |}.

(** The object entries of [plugin.hooks || {}]. *)
Definition entries (plugin : Plugin) : list (string * Hook) :=
  match hooks plugin with Some l => l | None => [] end.

(** One turn of the loop that registers the hooks of a plugin. *)
Definition add_hook (sets : JsMap (list Hook)) (entry : string * Hook)
  : JsMap (list Hook) :=
  let hookName := fst entry in
  let hookFn := snd entry in
  let sets := if map_has hookName sets then sets
              else map_set hookName [] sets in
  match map_get hookName sets with
  | Some s => map_set hookName (set_add hookFn s) sets
  | None => sets
  end.

(** [registerPlugin(plugin)]. *)
Definition registerPlugin (plugin : Plugin) (this : PluginManagerObj)
  : Completion unit * PluginManagerObj :=
  if falsy (plugin_name plugin) || falsy (version plugin) then
    (Throw (Error "Plugin must have name and version properties"), this)
  else
    let name := template_of (plugin_name plugin) in
    if map_has name (plugins this) then
      (Throw (Error ("Plugin " ++ name ++ " is already registered")), this)
    else
      match initialize plugin with
      | Some (Throw error) =>
          match message_of error with
          | Return text =>
              (Throw (Error ("Failed to initialize plugin " ++ name ++ ": "
                               ++ text)), this)
          | Throw typeError => (Throw typeError, this)
          end
      | _ =>
          (Return tt,
           {| plugins := map_set name plugin (plugins this);
              hook_sets := fold_left add_hook (entries plugin) (hook_sets this);
              console_out :=
                (console_out this ++
                 [console_log ("Plugin " ++ name ++ " v"
                                 ++ template_of (version plugin)
                                 ++ " registered successfully")])%list |})
      end.

(** The loop of [executeHook]: the results so far and the console.  The
    [catch] block reads [error.message]; when that throws, the loop and
    [executeHook] end with the [TypeError]. *)
Fixpoint run_hooks (hookName : string) (args : list JsValue)
    (hs : list Hook) (results : list JsValue) (out : list ConsoleLine)
  : Completion (list JsValue) * list ConsoleLine :=
  match hs with
  | [] => (Return results, out)
  | hook :: hs' =>
      match hook_fn hook args with
      | Return result =>
          run_hooks hookName args hs' (results ++ [result])%list out
      | Throw error =>
          match message_of error with
          | Return text =>
              run_hooks hookName args hs' (results ++ [js_null])%list
                (out ++ [console_error ("Error executing hook " ++ hookName
                                          ++ ": " ++ text)])%list
          | Throw typeError => (Throw typeError, out)
          end
      end
  end.

(** [executeHook(hookName, ...args)]. *)
Definition executeHook (hookName : string) (args : list JsValue)
    (this : PluginManagerObj)
  : Completion (list JsValue) * PluginManagerObj :=
  match map_get hookName (hook_sets this) with
  | None => (Return [], this)
  | Some hs =>
      let (results, out) := run_hooks hookName args hs [] (console_out this) in
      (results,
       {| plugins := plugins this;
          hook_sets := hook_sets this;
          console_out := out |})
  end.

(** The loop of [unregisterPlugin] over the entries of [#hooks]: the
    functions of the plugin leave every set, and a set left empty leaves
    the map. *)
Fixpoint remove_hooks (fns : list Hook) (sets : JsMap (list Hook))
  : JsMap (list Hook) :=
  match sets with
  | [] => []
  | (hookName, s) :: sets' =>
      let s' := fold_left (fun s hookFn => set_delete hookFn s) fns s in
      match s' with
      | [] => remove_hooks fns sets'
      | _ => (hookName, s') :: remove_hooks fns sets'
      end
  end.

(** [unregisterPlugin(pluginName)].  The hooks are removed first; the
    [catch] block around [shutdown] reads [error.message], and when that
    throws the [TypeError] leaves the method before the plugin is
    deleted. *)
Definition unregisterPlugin (pluginName : string) (this : PluginManagerObj)
  : Completion unit * PluginManagerObj :=
  match map_get pluginName (plugins this) with
  | None =>
      (Throw (Error ("Plugin " ++ pluginName ++ " is not registered")), this)
  | Some plugin =>
      let sets := remove_hooks (map snd (entries plugin)) (hook_sets this) in
      let finish (out : list ConsoleLine) :=
        (Return tt,
         {| plugins := map_delete pluginName (plugins this);
            hook_sets := sets;
            console_out :=
              (out ++ [console_log ("Plugin " ++ pluginName
                                      ++ " unregistered successfully")])%list
         |}) in
      match shutdown plugin with
      | Some (Throw error) =>
          match message_of error with
          | Return text =>
              finish (console_out this ++
                      [console_error ("Error shutting down plugin "
                                        ++ pluginName ++ ": " ++ text)])%list
          | Throw typeError =>
              (Throw typeError,
               {| plugins := plugins this;
                  hook_sets := sets;
                  console_out := console_out this |})
          end
      | _ => finish (console_out this)
      end
  end.

(** [getPlugin(pluginName)]. *)
Definition getPlugin (pluginName : string) (this : PluginManagerObj)
  : option Plugin :=
  map_get pluginName (plugins this).

(** [listPlugins()]. *)
Definition listPlugins (this : PluginManagerObj)
  : list (string * option string) :=
  map (fun entry => (fst entry, version (snd entry))) (plugins this).

End PluginManager.

(** What [executeHook] records for one hook. *)
Definition hook_result (args : list JsValue) (h : Hook) : JsValue :=
  match hook_fn h args with Return v => v | Throw _ => js_null end.

(** The hook [h] called with [args] returns or throws an error object:
    it does not reject with [null] or [undefined]. *)
Definition answers (args : list JsValue) (h : Hook) : Prop :=
  forall v, hook_fn h args <> Throw (thrown_nullish v).

(** Two plugins in the manner of the example: a logger with one hook that
    returns, and a notifier whose hook throws. *)
Definition logger_hook : Hook :=
  mkHook 1 (fun _ => Return js_undefined).
Definition failing_hook : Hook :=
  mkHook 2 (fun _ => Throw (Error "slack is down")).
Definition logger_plugin : Plugin :=
  mkPlugin (Some "console-logger") (Some "1.0.0") None None
           (Some [("onLog", logger_hook)]).
Definition notifier_plugin : Plugin :=
  mkPlugin (Some "slack-notifier") (Some "1.0.0") (Some (Return tt)) None
           (Some [("onLog", failing_hook)]).
Definition example_manager : PluginManagerObj :=
  snd (PluginManager.registerPlugin notifier_plugin
         (snd (PluginManager.registerPlugin logger_plugin PluginManager.new))).

(** A plugin whose [shutdown] throws an error object. *)
Definition reporter_plugin : Plugin :=
  mkPlugin (Some "reporter") (Some "2.0.0") (Some (Return tt))
           (Some (Throw (Error "flush failed")))
           (Some [("onLog", failing_hook)]).

(** A plugin whose hook and whose [shutdown] reject with [null], and the
    manager of the example with it registered last. *)
Definition muted_hook : Hook :=
  mkHook 3 (fun _ => Throw (thrown_nullish null_value)).
Definition muted_plugin : Plugin :=
  mkPlugin (Some "muted") (Some "0.1.0") None
           (Some (Throw (thrown_nullish null_value)))
           (Some [("onLog", muted_hook)]).
Definition crowded_manager : PluginManagerObj :=
  snd (PluginManager.registerPlugin muted_plugin example_manager).

(** A hook function that is none of the functions [fns]. *)
Definition kept (fns : list Hook) (h : Hook) : bool :=
  forallb (fun fn => negb (same_function fn h)) fns.

(** ** class AdaptiveRateLimiter: the request log *)

(** The fields [cleanup] reads and writes: the window and, for each
    client, the times of its requests.  The limits and the metrics of the
    class are not touched by it. *)
Record RateLimiterObj : Type := mkRateLimiter {
  windowMs : Z;
  requests : JsMap (list Z)
}.

Module AdaptiveRateLimiter.

(** The loop of [cleanup] over the entries of [this.requests]. *)
Fixpoint sweep (windowStart : Z) (entries : JsMap (list Z)) : JsMap (list Z) :=
  match entries with
  | [] => []
  | (clientId, times) :: entries' =>
      let validRequests := filter (fun time => time >? windowStart) times in
      match validRequests with
      | [] => sweep windowStart entries'
      | _ => (clientId, validRequests) :: sweep windowStart entries'
      end
  end.

(** [cleanup()], when [Date.now()] reads [now]. *)
Definition cleanup (now : Z) (this : RateLimiterObj) : RateLimiterObj :=
  let windowStart := now - windowMs this in
  {| windowMs := windowMs this;
     requests := sweep windowStart (requests this) |}.

End AdaptiveRateLimiter.

Definition example_limiter : RateLimiterObj :=
  {| windowMs := 60000;
     requests := [("10.0.0.1", [1000; 50000; 70000]); ("10.0.0.2", [2000])] |}.

(** ** The monad's equations *)

Open Scope list_scope.

Lemma bind_return {A B : Type} (m : M A) (k : A -> M B) w a w' :
  m w = Some (Return a, w') -> bind m k w = k a w'.
Proof. intros H; unfold bind; now rewrite H. Qed.

Lemma bind_throw {A B : Type} (m : M A) (k : A -> M B) w e w' :
  m w = Some (Throw e, w') -> bind m k w = Some (Throw e, w').
Proof. intros H; unfold bind; now rewrite H. Qed.

Lemma try_catch_return {A : Type} (m : M A) h w a w' :
  m w = Some (Return a, w') -> try_catch m h w = Some (Return a, w').
Proof. intros H; unfold try_catch; now rewrite H. Qed.

Lemma try_catch_throw {A : Type} (m : M A) h w e w' :
  m w = Some (Throw e, w') -> try_catch m h w = h e w'.
Proof. intros H; unfold try_catch; now rewrite H. Qed.

(** ** The retry loop *)

Lemma pause_step {A : Type} self retries (k : M A) w :
  (delay <- ExponentialBackoffRetry.calculateDelay self retries ;;
   ExponentialBackoffRetry.wait delay ;; k) w
  = k (pause self retries w).
Proof.
  unfold ExponentialBackoffRetry.calculateDelay, pause.
  destruct (jitter self); reflexivity.
Qed.

(** A function that throws whenever it is called exhausts the loop: it is
    called once more than there are retries left, and the error thrown
    names the number of retries and the last error's message.  [P] is any
    property of the world that a failed attempt followed by a pause
    carries from [k] attempts to [S k]. *)
Section RetryLoop.

Context {A : Type}.
Variable self : ExponentialBackoffRetryObj.
Variable fn : M A.
Variable err : World -> JsError.
Variable next : World -> World.
Variable P : nat -> World -> Prop.

Hypothesis fn_throws : forall w, fn w = Some (Throw (err w), next w).
Hypothesis P_step : forall k r w, P k w -> P (S k) (pause self r (next w)).

Remark gives_up retries :
  Z.to_nat (maxRetries self - retries) = 0%nat ->
  (retries >=? maxRetries self) = true.
Proof. intros H. apply Z.geb_le. lia. Qed.

Remark goes_on retries n :
  Z.to_nat (maxRetries self - retries) = S n ->
  (retries >=? maxRetries self) = false.
Proof.
  intros H. destruct (retries >=? maxRetries self) eqn:E; [|reflexivity].
  apply Z.geb_le in E. lia.
Qed.

Lemma loop_exhausts :
  forall n fuel retries w k0,
    P k0 w ->
    n = Z.to_nat (maxRetries self - retries) ->
    (n < fuel)%nat ->
    exists w',
      P (k0 + n)%nat w' /\
      ExponentialBackoffRetry.loop fuel self fn retries w
      = Some (Throw (Error (exhausted_message (retries + Z.of_nat n) (err w'))),
              next w').
Proof.
  induction n as [|n IH]; intros fuel retries w k0 HP Hn Hfuel;
    (destruct fuel as [|fuel]; [lia|]); cbn [ExponentialBackoffRetry.loop];
    rewrite (try_catch_throw _ _ _ _ _ (fn_throws w)).
  - rewrite gives_up by congruence.
    exists w. rewrite Nat.add_0_r, Z.add_0_r. now split.
  - rewrite (goes_on retries n) by congruence. rewrite pause_step.
    destruct (IH fuel (retries + 1) (pause self retries (next w)) (S k0))
      as (w' & HP' & Hrun); [now apply P_step|lia|lia|].
    exists w'. split.
    + now replace (k0 + S n)%nat with (S k0 + n)%nat by lia.
    + rewrite Hrun.
      now replace (retries + 1 + Z.of_nat n) with (retries + Z.of_nat (S n)) by lia.
Qed.

End RetryLoop.

(** ** One attempt of [RetryMechanism.execute] *)

Lemma attempt_throw {A : Type} self (op : Operation A) context startTime w
    (e : JsError) :
  op (calls w) = Throw e ->
  RetryMechanism.attempt self (invoke op) context startTime w
  = Some (Throw e, after_failure self context e w).
Proof.
  intros H. unfold RetryMechanism.attempt, invoke, bind, try_catch, modify.
  cbn. now rewrite H.
Qed.

Lemma attempt_return {A : Type} self (op : Operation A) context startTime w a :
  op (calls w) = Return a ->
  RetryMechanism.attempt self (invoke op) context startTime w
  = Some (Return a, after_success self context startTime w).
Proof.
  intros H. unfold RetryMechanism.attempt, invoke, bind, try_catch, modify.
  cbn. now rewrite H.
Qed.

(** ** [CircuitBreaker.execute] *)

Lemma gate_admits w :
  state (breaker w) <> OPEN -> CircuitBreaker.gate w = Some (Return tt, w).
Proof.
  intros H. unfold CircuitBreaker.gate, CircuitBreaker.this, gets, bind.
  destruct (state (breaker w)); [reflexivity | now elim H | reflexivity].
Qed.

(** A call admitted outside the Open state whose function throws: the
    [catch] block counts one failure. *)
Lemma breaker_counts_throw {A : Type} (fn : M A) w e w1 :
  state (breaker w) <> OPEN ->
  fn w = Some (Throw e, w1) ->
  CircuitBreaker.execute fn w
  = Some (Throw e,
          set_breaker (record_failure (clock w1 (ticks w1)) (breaker w1))
            (set_ticks (S (ticks w1)) w1)).
Proof.
  intros Hst Hfn. unfold CircuitBreaker.execute.
  rewrite (bind_return _ _ _ _ _ (gate_admits w Hst)).
  assert (Hat : CircuitBreaker.attempt fn w = Some (Throw e, w1))
    by (unfold CircuitBreaker.attempt; now apply bind_throw).
  rewrite (try_catch_throw _ _ _ _ _ Hat).
  unfold CircuitBreaker.on_error, CircuitBreaker.assign, CircuitBreaker.this,
    record_failure, bind, modify, gets, Date_now, throw, ret.
  cbn. destruct (failures (breaker w1) + 1 >=? failureThreshold (breaker w1));
    reflexivity.
Qed.

(** A call admitted outside the Open state whose function returns and
    leaves a Closed breaker: nothing is written. *)
Lemma breaker_passes_return {A : Type} (fn : M A) w a w1 :
  state (breaker w) <> OPEN ->
  fn w = Some (Return a, w1) ->
  state (breaker w1) = CLOSED ->
  CircuitBreaker.execute fn w = Some (Return a, w1).
Proof.
  intros Hst Hfn Hcl. unfold CircuitBreaker.execute.
  rewrite (bind_return _ _ _ _ _ (gate_admits w Hst)).
  apply try_catch_return. unfold CircuitBreaker.attempt.
  rewrite (bind_return _ _ _ _ _ Hfn).
  unfold CircuitBreaker.this, bind, gets, ret. now rewrite Hcl.
Qed.

(** ** [RetryMechanism.execute] on an operation that always fails *)

(** The first two statements of [execute] read the clock and clear
    [attempts]; the rest runs in the world they leave. *)
Lemma execute_begins {A : Type} fuel rm (fn : M A) context w :
  RetryMechanism.execute fuel rm fn context w
  = try_catch
      (CircuitBreaker.execute
         (ExponentialBackoffRetry.execute fuel (retrier rm)
            (RetryMechanism.attempt rm fn context (clock w (ticks w)))))
      (fun error =>
         n <- gets attempts ;;
         now <- Date_now ;;
         retryError <- lift (new_RetryError error n (now - clock w (ticks w))) ;;
         throw retryError)
      (set_attempts 0 (set_ticks (S (ticks w)) w)).
Proof. reflexivity. Qed.

Lemma attempts_made_step self rm context errs w0 k r w :
  attempts_made w0 k w ->
  attempts_made w0 (S k)
    (pause self r (after_failure rm context (errs (calls w)) w)).
Proof.
  unfold attempts_made, pause, after_failure.
  intros (Hc & Ha & Hb & Ht & Hk & Hr).
  destruct (jitter self); cbn; repeat split; try assumption; lia.
Qed.

(** The whole call, made while the breaker is not Open: the operation is
    invoked [maxRetries + 1] times, the breaker counts one failure, and
    the [RetryError] wraps the retrier's own error. *)
Lemma mechanism_exhausts {A : Type} rm (errs : nat -> JsError) context w fuel :
  state (breaker w) <> OPEN ->
  (Z.to_nat (maxRetries (retrier rm)) < fuel)%nat ->
  let n := Z.to_nat (maxRetries (retrier rm)) in
  exists w',
    RetryMechanism.execute (A := A) fuel rm (invoke (failing errs)) context w
    = Some (Throw (RetryError
                     (Error (exhausted_message (Z.of_nat n)
                               (errs (calls w + n)%nat)))
                     (Z.of_nat (S n))
                     (clock w (S (S (ticks w))) - clock w (ticks w))),
            w') /\
    calls w' = (calls w + S n)%nat /\
    breaker w' = record_failure (clock w (S (ticks w))) (breaker w) /\
    ticks w' = (ticks w + 3)%nat /\
    clock w' = clock w /\
    random w' = random w.
Proof.
  intros Hst Hfuel n.
  set (startTime := clock w (ticks w)).
  set (w1 := set_attempts 0 (set_ticks (S (ticks w)) w)).
  set (fn := RetryMechanism.attempt (A := A) rm (invoke (failing errs))
               context startTime).
  destruct (loop_exhausts (retrier rm) fn
              (fun v => errs (calls v))
              (fun v => after_failure rm context (errs (calls v)) v)
              (attempts_made w1)
              (fun v => attempt_throw rm (failing errs) context startTime v
                          (errs (calls v)) eq_refl)
              (fun k r v => attempts_made_step (retrier rm) rm context errs
                              w1 k r v)
              n fuel 0 w1 0%nat)
    as (w2 & (Hc & Ha & Hb & Ht & Hk & Hr) & Hloop);
    [ unfold attempts_made; repeat split; lia
    | subst n; f_equal; lia
    | exact Hfuel
    | ].
  cbn in Hc, Ha, Hb, Ht, Hk, Hr.
  assert (Hcb :
    CircuitBreaker.execute (ExponentialBackoffRetry.execute fuel (retrier rm) fn) w1
    = Some (Throw (Error (exhausted_message (Z.of_nat n)
                            (errs (calls w + n)%nat))),
            set_breaker
              (record_failure (clock w (S (ticks w))) (breaker w))
              (set_ticks (S (S (ticks w)))
                 (after_failure rm context (errs (calls w2)) w2)))).
  { unfold ExponentialBackoffRetry.execute.
    rewrite (breaker_counts_throw _ w1 _ _ Hst Hloop).
    cbn. rewrite Hc, Hb, Ht, Hk. reflexivity. }
  exists (set_ticks (S (S (S (ticks w))))
            (set_breaker
               (record_failure (clock w (S (ticks w))) (breaker w))
               (after_failure rm context (errs (calls w2)) w2))).
  split.
  - rewrite execute_begins. fold startTime w1 fn.
    rewrite (try_catch_throw _ _ _ _ _ Hcb).
    unfold bind, gets, Date_now, throw. cbn.
    rewrite Ha, Hk. do 5 f_equal. lia.
  - cbn. repeat split; try assumption; lia.
Qed.

(** ** What the logger receives *)

(** An attempt whose operation throws, an error object or not. *)
Lemma attempt_rejects {A : Type} self (op : Operation A) context startTime w t :
  op (calls w) = Throw t ->
  RetryMechanism.attempt self (invoke op) context startTime w
  = Some (Throw (entering t), after_rejection self context t w).
Proof.
  intros H. destruct t as [e|v]; [now apply attempt_throw|].
  unfold RetryMechanism.attempt, invoke, bind, try_catch, modify.
  cbn. now rewrite H.
Qed.

Lemma reported_among_app {A : Type} (op : Operation A) :
  forall n c m,
    reported_among op c (n + m)
    = (reported_among op c n + reported_among op (c + n) m)%nat.
Proof.
  induction n as [|n IH]; intros c m; cbn.
  - now rewrite Nat.add_0_r.
  - rewrite IH. replace (S c + n)%nat with (c + S n)%nat by lia. lia.
Qed.

Lemma logged_trans {A : Type} (op : Operation A) w1 w2 w3 :
  logged op w1 w2 -> logged op w2 w3 -> logged op w1 w3.
Proof.
  intros (e1 & n1 & Hs1 & Hf1 & Hc1 & Hl1) (e2 & n2 & Hs2 & Hf2 & Hc2 & Hl2).
  exists (e1 ++ e2), (n1 + n2)%nat.
  rewrite Hs2, Hs1, Hc2, Hc1, app_assoc, length_app, reported_among_app.
  rewrite Hl1, Hl2, Hc1.
  repeat split; [now apply Forall_app | lia].
Qed.

Lemma quiet_logged {A : Type} (op : Operation A) w w' :
  quiet w w' -> logged op w w'.
Proof.
  intros (Hs & Hc). exists [], 0%nat. cbn.
  rewrite app_nil_r, Nat.add_0_r.
  repeat split; [assumption | constructor | assumption].
Qed.

Lemma quiet_pause self r w : quiet w (pause self r w).
Proof. unfold quiet, pause. destruct (jitter self); now split. Qed.

Lemma logged_after_rejection {A : Type} (op : Operation A) rm context t w :
  op (calls w) = Throw t ->
  logged op w (after_rejection rm context t w).
Proof.
  intros Hop. destruct t as [e|v].
  - exists [failure_event rm context (attempts w + 1) e], 1%nat. cbn.
    rewrite Hop. cbn. repeat split; [|lia]. repeat constructor.
  - exists [], 1%nat. cbn. rewrite Hop, app_nil_r. cbn.
    repeat split; [constructor | lia].
Qed.

Lemma logged_after_success {A : Type} (op : Operation A) rm context
    startTime w a :
  op (calls w) = Return a ->
  logged op w (after_success rm context startTime w).
Proof.
  intros Hop. eexists [_], 1%nat. cbn. rewrite Hop. cbn.
  repeat split; [|lia]. constructor; [|constructor]. now right.
Qed.

(** The retry loop around the counted, logged attempt ends for every
    operation once the fuel exceeds the retries left, and logs one event
    for each reportable invocation. *)
Lemma loop_logs {A : Type} rm self (op : Operation A) context startTime :
  forall n fuel retries w,
    n = Z.to_nat (maxRetries self - retries) ->
    (n < fuel)%nat ->
    exists r w',
      ExponentialBackoffRetry.loop fuel self
        (RetryMechanism.attempt rm (invoke op) context startTime) retries w
      = Some (r, w') /\
      logged op w w' /\ breaker w' = breaker w.
Proof.
  induction n as [|n IH]; intros fuel retries w Hn Hfuel;
    (destruct fuel as [|fuel]; [lia|]); cbn [ExponentialBackoffRetry.loop];
    destruct (op (calls w)) as [a|t] eqn:Hop.
  - rewrite (try_catch_return _ _ _ _ _
               (attempt_return rm op context startTime w a Hop)).
    do 2 eexists. split; [reflexivity|]. split; [|reflexivity].
    now apply logged_after_success with (a := a).
  - rewrite (try_catch_throw _ _ _ _ _
               (attempt_rejects rm op context startTime w t Hop)).
    rewrite gives_up by congruence. do 2 eexists.
    split; [reflexivity|]. split; [|now destruct t].
    now apply logged_after_rejection.
  - rewrite (try_catch_return _ _ _ _ _
               (attempt_return rm op context startTime w a Hop)).
    do 2 eexists. split; [reflexivity|]. split; [|reflexivity].
    now apply logged_after_success with (a := a).
  - rewrite (try_catch_throw _ _ _ _ _
               (attempt_rejects rm op context startTime w t Hop)).
    rewrite (goes_on self retries n) by congruence. rewrite pause_step.
    destruct (IH fuel (retries + 1)
                (pause self retries (after_rejection rm context t w)))
      as (r & w' & Hrun & Hlog & Hb); [lia|lia|].
    exists r, w'. split; [exact Hrun|]. split.
    + apply logged_trans with (w2 := after_rejection rm context t w);
        [now apply logged_after_rejection|].
      eapply logged_trans; [apply quiet_logged, quiet_pause|exact Hlog].
    + rewrite Hb. unfold pause. destruct (jitter self); now destruct t.
Qed.

(** Unfolds the gate of the breaker down to the world it produces. *)
Ltac run_gate :=
  unfold CircuitBreaker.gate, CircuitBreaker.this, CircuitBreaker.assign,
    bind, gets, modify, Date_now, throw, ret;
  cbn.

(** The breaker either rejects the call, or admits it and hands on how the
    function completed; its own statements log nothing. *)
Lemma breaker_is_quiet {A : Type} (fn : M A) w :
  (exists wg,
      CircuitBreaker.execute fn w = Some (Throw CircuitBreaker.open_error, wg) /\
      quiet w wg) \/
  (exists wg,
      quiet w wg /\
      forall r w2, fn wg = Some (r, w2) ->
        exists w3, CircuitBreaker.execute fn w = Some (r, w3) /\ quiet w2 w3).
Proof.
  unfold CircuitBreaker.execute.
  destruct (CircuitBreaker.gate w) as [[[[]|e] wg]|] eqn:Hg.
  - right. exists wg. split.
    + revert Hg. run_gate.
      destruct (state (breaker w)); cbn;
        try (intros H; injection H as <-; now split).
      destruct (_ >=? _); intros H; [injection H as <-; now split|discriminate].
    + intros r w2 Hfn. rewrite (bind_return _ _ _ _ _ Hg).
      unfold try_catch, CircuitBreaker.attempt, bind. rewrite Hfn.
      destruct r as [a|e].
      * unfold CircuitBreaker.this, CircuitBreaker.assign, bind, gets, modify, ret.
        cbn. destruct (state (breaker w2)); eexists; split; try reflexivity;
          now split.
      * unfold CircuitBreaker.on_error, CircuitBreaker.this,
          CircuitBreaker.assign, bind, gets, modify, Date_now, throw, ret. cbn.
        destruct (_ >=? _); eexists; (split; [reflexivity|now split]).
  - left. exists wg. revert Hg.
    run_gate.
    destruct (state (breaker w)); cbn; try discriminate.
    destruct (_ >=? _); [discriminate|].
    intros H; injection H as <- <-. unfold bind. cbn. split; [reflexivity|now split].
  - exfalso. revert Hg.
    run_gate.
    destruct (state (breaker w)); cbn; try discriminate.
    destruct (_ >=? _); discriminate.
Qed.

(** [RetryMechanism.execute] ends for every operation once the fuel
    exceeds [maxRetries], and logs one event for each reportable
    invocation. *)
Lemma mechanism_logs {A : Type} rm (op : Operation A) context w fuel :
  (Z.to_nat (maxRetries (retrier rm)) < fuel)%nat ->
  exists r w',
    RetryMechanism.execute fuel rm (invoke op) context w = Some (r, w') /\
    logged op w w'.
Proof.
  intros Hfuel. rewrite execute_begins.
  set (startTime := clock w (ticks w)).
  set (w1 := set_attempts 0 (set_ticks (S (ticks w)) w)).
  assert (H01 : logged op w w1) by (apply quiet_logged; now split).
  destruct (breaker_is_quiet
              (ExponentialBackoffRetry.execute fuel (retrier rm)
                 (RetryMechanism.attempt rm (invoke op) context startTime)) w1)
    as [(wg & Hrej & Hq) | (wg & Hq & Hadm)].
  - rewrite (try_catch_throw _ _ _ _ _ Hrej).
    do 2 eexists. split; [reflexivity|].
    eapply logged_trans; [exact H01|]. apply quiet_logged.
    destruct Hq as (Hs & Hc). now split.
  - destruct (loop_logs rm (retrier rm) op context startTime
                (Z.to_nat (maxRetries (retrier rm))) fuel 0 wg)
      as (r & w2 & Hrun & Hlog & _); [f_equal; lia|exact Hfuel|].
    destruct (Hadm r w2 Hrun) as (w3 & Hex & Hq3).
    assert (H03 : logged op w w3).
    { eapply logged_trans; [exact H01|].
      eapply logged_trans; [apply quiet_logged, Hq|].
      eapply logged_trans; [exact Hlog|apply quiet_logged, Hq3]. }
    destruct r as [a|e].
    + rewrite (try_catch_return _ _ _ _ _ Hex). now exists (Return a), w3.
    + rewrite (try_catch_throw _ _ _ _ _ Hex).
      unfold bind, gets, Date_now, lift, throw. cbn.
      destruct (new_RetryError e _ _); do 2 eexists;
        (split; [reflexivity|]);
        (eapply logged_trans; [exact H03|]); apply quiet_logged; now split.
Qed.

(** * The properties *)

(** C1: with [maxRetries = 1] and [failureThreshold = 2], two top-level
    calls of an operation that always fails invoke it four times and
    leave the breaker Open: each call makes two attempts and counts as one
    failure, so the first leaves the breaker Closed with one failure and
    the second reaches the threshold. *)
Theorem two_exhausted_calls_open_the_circuit :
  forall (A : Type) bd md j rt lg (errs : nat -> JsError) c1 c2 w fuel1 fuel2,
    let rm := RetryMechanism.constructor
                (Some (mkRetryMechanismOptions
                         (Some (mkRetryOptions bd md (Some 1) j))
                         (Some (mkCircuitBreakerOptions (Some 2) rt))
                         lg)) in
    exists e1 d1 w1 e2 d2 w2,
      RetryMechanism.execute (A := A) (2 + fuel1) rm (invoke (failing errs)) c1
        (set_breaker (circuitBreaker rm) w)
      = Some (Throw (RetryError e1 2 d1), w1) /\
      calls w1 = (calls w + 2)%nat /\
      failures (breaker w1) = 1 /\
      state (breaker w1) = CLOSED /\
      RetryMechanism.execute (A := A) (2 + fuel2) rm (invoke (failing errs)) c2 w1
      = Some (Throw (RetryError e2 2 d2), w2) /\
      calls w2 = (calls w + 4)%nat /\
      failures (breaker w2) = 2 /\
      state (breaker w2) = OPEN.
Proof.
  intros A bd md j rt lg errs c1 c2 w fuel1 fuel2 rm.
  destruct (mechanism_exhausts (A := A) rm errs c1
              (set_breaker (circuitBreaker rm) w) (2 + fuel1))
    as (w1 & Hrun1 & Hc1 & Hb1 & _); [discriminate | cbn; lia |].
  cbn in Hrun1, Hc1, Hb1.
  destruct (mechanism_exhausts (A := A) rm errs c2 w1 (2 + fuel2))
    as (w2 & Hrun2 & Hc2 & Hb2 & _); [now rewrite Hb1 | cbn; lia |].
  cbn in Hrun2, Hc2.
  do 6 eexists.
  split; [exact Hrun1|]. split; [exact Hc1|].
  split; [now rewrite Hb1|]. split; [now rewrite Hb1|].
  split; [exact Hrun2|]. split; [lia|].
  rewrite Hb2, Hb1. now split.
Qed.

(** C3: with [maxRetries = 2] an operation that always fails is invoked
    exactly three times, and the call fails with a [RetryError] whose
    [attempts] is 3. *)
Theorem three_invocations_then_retry_error :
  forall (A : Type) bd md j cbo lg (errs : nat -> JsError) context w fuel,
    let rm := RetryMechanism.constructor
                (Some (mkRetryMechanismOptions
                         (Some (mkRetryOptions bd md (Some 2) j)) cbo lg)) in
    exists e d w',
      RetryMechanism.execute (A := A) (3 + fuel) rm (invoke (failing errs))
        context (set_breaker (circuitBreaker rm) w)
      = Some (Throw (RetryError e 3 d), w') /\
      calls w' = (calls w + 3)%nat.
Proof.
  intros A bd md j cbo lg errs context w fuel rm.
  destruct (mechanism_exhausts (A := A) rm errs context
              (set_breaker (circuitBreaker rm) w) (3 + fuel))
    as (w' & Hrun & Hc & _); [discriminate | cbn; lia |].
  cbn in Hrun, Hc. do 3 eexists. split; [exact Hrun | exact Hc].
Qed.

(** C5: the constructor replaces [maxRetries: 0] by the default 5, so an
    operation that always fails is invoked six times before the retrier
    gives up, not once.  The loop itself makes a single attempt when the
    field [maxRetries] holds 0. *)
Theorem zero_maxRetries_runs_six_attempts :
  forall (A : Type) bd md j (errs : nat -> JsError) w fuel,
    let self := ExponentialBackoffRetry.constructor
                  (Some (mkRetryOptions bd md (Some 0) j)) in
    maxRetries self = 5 /\
    (exists w',
        ExponentialBackoffRetry.execute (A := A) (6 + fuel) self
          (invoke (failing errs)) w
        = Some (Throw (Error (exhausted_message 5 (errs (calls w + 5)%nat))),
                w') /\
        calls w' = (calls w + 6)%nat) /\
    (forall bd' md' j',
        ExponentialBackoffRetry.execute (A := A) (1 + fuel)
          (mkRetrier bd' md' 0 j') (invoke (failing errs)) w
        = Some (Throw (Error (exhausted_message 0 (errs (calls w)))),
                set_calls (S (calls w)) w)).
Proof.
  intros A bd md j errs w fuel self. split; [reflexivity|]. split.
  - destruct (loop_exhausts (A := A) self (invoke (failing errs))
                (fun v => errs (calls v)) (fun v => set_calls (S (calls v)) v)
                (fun k v => calls v = (calls w + k)%nat)
                (fun v => eq_refl))
      with (n := 5%nat) (fuel := (6 + fuel)%nat) (retries := 0) (w := w)
           (k0 := 0%nat)
      as (w' & Hc & Hrun);
      [ intros k r v Hv; unfold pause; destruct (jitter self); cbn; lia
      | lia | reflexivity | lia | ].
    exists (set_calls (S (calls w')) w'). unfold ExponentialBackoffRetry.execute.
    rewrite Hrun, Hc. cbn. split; [reflexivity | lia].
  - intros bd' md' j'. reflexivity.
Qed.

(** C7, as stated, fails: options with [maxDelay < baseDelay] construct
    an object. *)
Lemma malformed_configuration_is_accepted :
  exists self,
    ExponentialBackoffRetry.new
      (passed (mkRetryOptions (Some (1000 # 1)%Q) (Some (500 # 1)%Q) None None))
    = Return self /\
    (maxDelay self < baseDelay self)%Q.
Proof. eexists. split; reflexivity. Qed.

(** C7, amended: the constructor validates nothing; there is no
    configuration error.  Called without argument it completes with the
    defaults: [baseDelay] 1000, [maxDelay] 30000, [maxRetries] 5 and
    [jitter] true.  Called with an options object it completes with an
    object that stores every [baseDelay], [maxDelay] and [maxRetries]
    given and not zero as it is, whatever its value, takes the default
    for an option that is absent, and has [jitter] true when the option
    is absent or true.  Only a [null] argument makes it fail, with the
    engine's [TypeError].  [calculateDelay] has no error condition: on
    every object, index and world it returns a delay, after one draw of
    the random source when [jitter] is set and none otherwise. *)
Theorem constructor_validates_nothing :
  ExponentialBackoffRetry.new omitted
  = Return (mkRetrier (1000 # 1) (30000 # 1) 5 true) /\
  ExponentialBackoffRetry.new passed_null
  = Throw (cannot_read null_value "baseDelay") /\
  (forall options,
    exists self,
      ExponentialBackoffRetry.new (passed options) = Return self /\
      (forall bd, opt_baseDelay options = Some bd -> ~ (bd == 0)%Q ->
                  baseDelay self = bd) /\
      (opt_baseDelay options = None -> baseDelay self = (1000 # 1)%Q) /\
      (forall md, opt_maxDelay options = Some md -> ~ (md == 0)%Q ->
                  maxDelay self = md) /\
      (opt_maxDelay options = None -> maxDelay self = (30000 # 1)%Q) /\
      (forall mr, opt_maxRetries options = Some mr -> mr <> 0 ->
                  maxRetries self = mr) /\
      (opt_maxRetries options = None -> maxRetries self = 5) /\
      (opt_jitter options <> Some false -> jitter self = true)) /\
  (forall self retryCount w,
      exists delay,
        ExponentialBackoffRetry.calculateDelay self retryCount w
        = Some (Return delay,
                if jitter self then set_draws (S (draws w)) w else w)).
Proof.
  split; [reflexivity|]. split; [reflexivity|]. split.
  - intros options. eexists. split; [reflexivity|].
    assert (Hkeep : forall q d : Q, ~ (q == 0)%Q -> js_or (Some q) d = q).
    { intros q d Hq. unfold js_or, truthy, Truthy_Q.
      destruct (Qeq_bool q 0) eqn:E; [|reflexivity].
      now apply Qeq_bool_eq in E. }
    assert (HkeepZ : forall z d : Z, z <> 0 -> js_or (Some z) d = z).
    { intros z d Hz. unfold js_or, truthy, Truthy_Z.
      destruct (z =? 0) eqn:E; [|reflexivity].
      now apply Z.eqb_eq in E. }
    cbn. repeat split.
    + intros bd Hbd Hnz. rewrite Hbd. now apply Hkeep.
    + now intros ->.
    + intros md Hmd Hnz. rewrite Hmd. now apply Hkeep.
    + now intros ->.
    + intros mr Hmr Hnz. rewrite Hmr. now apply HkeepZ.
    + now intros ->.
    + intros Hj. destruct (opt_jitter options) as [[|]|];
        [reflexivity | now elim Hj | reflexivity].
  - intros self retryCount w. unfold ExponentialBackoffRetry.calculateDelay.
    destruct (jitter self); eexists; reflexivity.
Qed.

Lemma constructor_validates_nothing_witness :
  exists self,
    ExponentialBackoffRetry.new
      (passed (mkRetryOptions (Some ((-5) # 1)%Q) (Some ((-9) # 1)%Q)
                 (Some (-2)) None))
    = Return self /\
    baseDelay self = ((-5) # 1)%Q /\
    maxDelay self = ((-9) # 1)%Q /\
    maxRetries self = -2 /\
    jitter self = true.
Proof.
  destruct (proj1 (proj2 (proj2 constructor_validates_nothing))
              (mkRetryOptions (Some ((-5) # 1)%Q) (Some ((-9) # 1)%Q)
                 (Some (-2)) None))
    as (self & Hnew & Hbd & _ & Hmd & _ & Hmr & _ & Hj).
  exists self. split; [exact Hnew|]. split; [|split; [|split]].
  - apply Hbd; [reflexivity | discriminate].
  - apply Hmd; [reflexivity | discriminate].
  - apply Hmr; [reflexivity | discriminate].
  - apply Hj. discriminate.
Defined.

(** ** The Open state of the breaker *)

(** Before the timeout has elapsed an Open breaker rejects the call
    whatever the function is: only the clock is read. *)
Lemma open_rejects {A : Type} (fn : M A) w :
  state (breaker w) = OPEN ->
  clock w (ticks w) - to_number (lastFailureTime (breaker w))
    < resetTimeout (breaker w) ->
  CircuitBreaker.execute fn w
  = Some (Throw CircuitBreaker.open_error, set_ticks (S (ticks w)) w).
Proof.
  intros Hst Hlt.
  unfold CircuitBreaker.execute, CircuitBreaker.gate, CircuitBreaker.this,
    bind, gets, Date_now, throw.
  rewrite Hst. cbn.
  destruct (_ >=? _) eqn:E; [apply Z.geb_le in E; lia | reflexivity].
Qed.

(** Once the timeout has elapsed the gate moves an Open breaker to
    HalfOpen and lets the call through. *)
Lemma open_admits_trial w :
  state (breaker w) = OPEN ->
  clock w (ticks w) - to_number (lastFailureTime (breaker w))
    >= resetTimeout (breaker w) ->
  CircuitBreaker.gate w
  = Some (Return tt,
          set_breaker (set_state HALF_OPEN (breaker w))
            (set_ticks (S (ticks w)) w)).
Proof.
  intros Hst Hge.
  unfold CircuitBreaker.gate, CircuitBreaker.this, CircuitBreaker.assign,
    bind, gets, modify, Date_now.
  rewrite Hst. cbn.
  destruct (_ >=? _) eqn:E; [reflexivity|].
  assert (H := proj2 (Z.geb_le _ _) (proj1 (Z.ge_le_iff _ _) Hge)).
  congruence.
Qed.

(** The trial call succeeds: the breaker closes and forgets its failures. *)
Lemma trial_success {A : Type} (op : Operation A) w a :
  state (breaker w) = OPEN ->
  clock w (ticks w) - to_number (lastFailureTime (breaker w))
    >= resetTimeout (breaker w) ->
  op (calls w) = Return a ->
  CircuitBreaker.execute (invoke op) w
  = Some (Return a,
          set_breaker (set_failures 0 (set_state CLOSED (breaker w)))
            (set_calls (S (calls w)) (set_ticks (S (ticks w)) w))).
Proof.
  intros Hst Hge Hop. unfold CircuitBreaker.execute.
  rewrite (bind_return _ _ _ _ _ (open_admits_trial w Hst Hge)).
  apply try_catch_return.
  unfold CircuitBreaker.attempt, CircuitBreaker.this, CircuitBreaker.assign,
    invoke, bind, gets, modify, ret.
  cbn. now rewrite Hop.
Qed.

(** The trial call fails: one more failure is counted at the time then
    read. *)
Lemma trial_failure {A : Type} (op : Operation A) w e :
  state (breaker w) = OPEN ->
  clock w (ticks w) - to_number (lastFailureTime (breaker w))
    >= resetTimeout (breaker w) ->
  op (calls w) = Throw e ->
  CircuitBreaker.execute (invoke op) w
  = Some (Throw e,
          set_breaker
            (record_failure (clock w (S (ticks w)))
               (set_state HALF_OPEN (breaker w)))
            (set_calls (S (calls w)) (set_ticks (S (S (ticks w))) w))).
Proof.
  intros Hst Hge Hop. unfold CircuitBreaker.execute.
  rewrite (bind_return _ _ _ _ _ (open_admits_trial w Hst Hge)).
  unfold try_catch, CircuitBreaker.attempt, invoke, bind. cbn. rewrite Hop.
  unfold CircuitBreaker.on_error, CircuitBreaker.assign, CircuitBreaker.this,
    record_failure, bind, modify, gets, Date_now, throw, ret.
  cbn. destruct (_ >=? _); reflexivity.
Qed.

(** ** A call that exhausts its retries *)

(** A call the gate admits whose function throws: the [catch] block
    counts one failure. *)
Lemma admitted_breaker_counts_throw {A : Type} (fn : M A) w wg e w1 :
  CircuitBreaker.gate w = Some (Return tt, wg) ->
  fn wg = Some (Throw e, w1) ->
  CircuitBreaker.execute fn w
  = Some (Throw e,
          set_breaker (record_failure (clock w1 (ticks w1)) (breaker w1))
            (set_ticks (S (ticks w1)) w1)).
Proof.
  intros Hgate Hfn. unfold CircuitBreaker.execute.
  rewrite (bind_return _ _ _ _ _ Hgate).
  assert (Hat : CircuitBreaker.attempt fn wg = Some (Throw e, w1))
    by (unfold CircuitBreaker.attempt; now apply bind_throw).
  rewrite (try_catch_throw _ _ _ _ _ Hat).
  unfold CircuitBreaker.on_error, CircuitBreaker.assign, CircuitBreaker.this,
    record_failure, bind, modify, gets, Date_now, throw, ret.
  cbn. destruct (failures (breaker w1) + 1 >=? failureThreshold (breaker w1));
    reflexivity.
Qed.

Lemma rejections_made_step self rm context t w0 k r w :
  attempts_made w0 k w ->
  attempts_made w0 (S k) (pause self r (after_rejection rm context t w)).
Proof.
  unfold attempts_made, pause, after_rejection, after_failure.
  intros (Hc & Ha & Hb & Ht & Hk & Hr).
  destruct t, (jitter self); cbn; repeat split; try assumption; lia.
Qed.

(** The whole call once the gate has let it through into world [wg]: the
    operation is invoked once more than there are retries, and the
    [RetryError] wraps the retrier's own error. *)
Lemma admitted_call_exhausts {A : Type} rm (ts : nat -> Thrown) context w wg
    fuel :
  CircuitBreaker.gate (set_attempts 0 (set_ticks (S (ticks w)) w))
  = Some (Return tt, wg) ->
  calls wg = calls w -> attempts wg = 0 -> clock wg = clock w ->
  (Z.to_nat (maxRetries (retrier rm)) < fuel)%nat ->
  let n := Z.to_nat (maxRetries (retrier rm)) in
  exists w',
    RetryMechanism.execute (A := A) fuel rm (invoke (rejecting ts)) context w
    = Some (Throw (RetryError
                     (Error (exhausted_message (Z.of_nat n)
                               (entering (ts (calls w + n)%nat))))
                     (Z.of_nat (S n))
                     (clock w (S (ticks wg)) - clock w (ticks w))),
            w') /\
    calls w' = (calls w + S n)%nat.
Proof.
  intros Hgate Hcg Hag Hkg Hfuel n.
  set (startTime := clock w (ticks w)).
  set (w1 := set_attempts 0 (set_ticks (S (ticks w)) w)) in *.
  set (fn := RetryMechanism.attempt (A := A) rm (invoke (rejecting ts))
               context startTime).
  destruct (loop_exhausts (retrier rm) fn
              (fun v => entering (ts (calls v)))
              (fun v => after_rejection rm context (ts (calls v)) v)
              (attempts_made wg)
              (fun v => attempt_rejects rm (rejecting ts) context startTime v
                          (ts (calls v)) eq_refl)
              (fun k r v => rejections_made_step (retrier rm) rm context
                              (ts (calls v)) wg k r v)
              n fuel 0 wg 0%nat)
    as (w2 & (Hc & Ha & Hb & Ht & Hk & Hr) & Hloop);
    [ unfold attempts_made; repeat split; lia
    | subst n; f_equal; lia
    | exact Hfuel
    | ].
  set (w3 := after_rejection rm context (ts (calls w2)) w2) in *.
  assert (H3 : calls w3 = S (calls w2) /\ attempts w3 = attempts w2 + 1 /\
               ticks w3 = ticks w2 /\ clock w3 = clock w2)
    by (unfold w3; now destruct (ts (calls w2))).
  destruct H3 as (Hc3 & Ha3 & Ht3 & Hk3).
  pose proof (admitted_breaker_counts_throw
                (ExponentialBackoffRetry.execute fuel (retrier rm) fn)
                w1 wg _ w3 Hgate Hloop) as Hcb.
  eexists. split.
  - rewrite execute_begins. fold startTime w1 fn.
    rewrite (try_catch_throw _ _ _ _ _ Hcb).
    unfold bind, gets, Date_now, lift, throw. cbn.
    rewrite Ha3, Ha, Hag, Hk3, Hk, Hkg, Ht3, Ht, Hc, Hcg.
    apply f_equal. apply f_equal2; [|reflexivity].
    do 3 f_equal. lia.
  - cbn. lia.
Qed.

(** C6, as stated, fails: the operation throws [Error('boom')] and the
    [RetryError] carries another error as its [originalError]. *)
Lemma retry_error_wraps_another_error :
  exists e n d w',
    RetryMechanism.execute 6 default_mechanism (invoke boom) [] sample_world
    = Some (Throw (RetryError e n d), w') /\
    e <> Error "boom".
Proof.
  do 4 eexists. split; [vm_compute; reflexivity | discriminate].
Qed.

(** C6, amended: a call on an operation that always fails ends, whatever
    the state of the breaker, once the fuel exceeds [maxRetries].  When
    the breaker lets it through, Closed or for a trial, the retries are
    exhausted after [n + 1] invocations, where [n] is [maxRetries], or 0
    when [maxRetries] is negative, and the [RetryError] carries as
    [originalError] the error the retrier creates, whose message is
    [Failed after n retries: ] followed by the message of the error of
    the last attempt: that of the operation's error object, or of the
    [TypeError] of reading the message of [null] or [undefined].  Its
    [attempts] is the number of invocations and its [duration] the last
    reading of the clock minus the reading at the start; the gate of an
    Open breaker reads the clock once in between.  When the Open breaker
    turns the call away, the operation is not invoked and the
    [RetryError] carries the circuit-open error and 0 attempts. *)
Theorem retry_error_carries_the_retrier_error :
  forall (A : Type) rm (ts : nat -> Thrown) context w fuel,
    (Z.to_nat (maxRetries (retrier rm)) < fuel)%nat ->
    let n := Z.to_nat (maxRetries (retrier rm)) in
    let start := clock w (ticks w) in
    exists w',
      RetryMechanism.execute (A := A) fuel rm (invoke (rejecting ts)) context w
      = Some (Throw
                (if turned_away w then
                   RetryError CircuitBreaker.open_error 0
                     (clock w (ticks w + 2) - start)
                 else
                   RetryError
                     (Error (exhausted_message (Z.of_nat n)
                               (entering (ts (calls w + n)%nat))))
                     (Z.of_nat (S n))
                     (clock w (ticks w + 2 + gate_reads w) - start)),
              w') /\
      calls w' = (if turned_away w then calls w else calls w + S n)%nat.
Proof.
  intros A rm ts context w fuel Hfuel n start.
  set (w1 := set_attempts 0 (set_ticks (S (ticks w)) w)).
  unfold turned_away, gate_reads.
  destruct (state (breaker w)) eqn:Hst.
  - destruct (admitted_call_exhausts (A := A) rm ts context w w1 fuel)
      as (w' & Hrun & Hc); try reflexivity; try exact Hfuel.
    { apply gate_admits. cbn. congruence. }
    exists w'. split; [|exact Hc]. rewrite Hrun. cbn.
    now replace (ticks w + 2 + 0)%nat with (S (S (ticks w))) by lia.
  - destruct (clock w (S (ticks w)) - to_number (lastFailureTime (breaker w))
              >=? resetTimeout (breaker w)) eqn:E; cbn [negb].
    + assert (Hge : clock w1 (ticks w1)
                    - to_number (lastFailureTime (breaker w1))
                    >= resetTimeout (breaker w1))
        by (cbn; apply Z.geb_le in E; lia).
      destruct (admitted_call_exhausts (A := A) rm ts context w
                  (set_breaker (set_state HALF_OPEN (breaker w1))
                     (set_ticks (S (ticks w1)) w1)) fuel)
        as (w' & Hrun & Hc); try reflexivity; try exact Hfuel.
      { now apply open_admits_trial. }
      exists w'. split; [|exact Hc]. rewrite Hrun. cbn.
      now replace (ticks w + 2 + 1)%nat with (S (S (S (ticks w)))) by lia.
    + assert (Hlt : clock w1 (ticks w1)
                    - to_number (lastFailureTime (breaker w1))
                    < resetTimeout (breaker w1)).
      { cbn. destruct (Z.lt_ge_cases
                         (clock w (S (ticks w))
                          - to_number (lastFailureTime (breaker w)))
                         (resetTimeout (breaker w))) as [H|H]; [exact H|].
        apply Z.geb_le in H. congruence. }
      rewrite execute_begins. fold w1.
      pose proof (open_rejects
                    (ExponentialBackoffRetry.execute fuel (retrier rm)
                       (RetryMechanism.attempt (A := A) rm
                          (invoke (rejecting ts)) context
                          (clock w (ticks w)))) w1 Hst Hlt) as Hrej.
      rewrite (try_catch_throw _ _ _ _ _ Hrej).
      eexists. split.
      * unfold bind, gets, Date_now, lift, throw. cbn.
        replace (ticks w + 2)%nat with (S (S (ticks w))) by lia.
        reflexivity.
      * reflexivity.
  - destruct (admitted_call_exhausts (A := A) rm ts context w w1 fuel)
      as (w' & Hrun & Hc); try reflexivity; try exact Hfuel.
    { apply gate_admits. cbn. congruence. }
    exists w'. split; [|exact Hc]. rewrite Hrun. cbn.
    now replace (ticks w + 2 + 0)%nat with (S (S (ticks w))) by lia.
Qed.

Lemma retry_error_carries_the_retrier_error_witness :
  let trial := set_breaker (mkBreaker 5 1000 5 OPEN (Some 0)) sample_world in
  (exists w',
      RetryMechanism.execute 6 default_mechanism (invoke boom) [] sample_world
      = Some (Throw (RetryError (Error "Failed after 5 retries: boom") 6 2000),
              w') /\
      calls w' = 6%nat) /\
  (exists w',
      RetryMechanism.execute 6 default_mechanism (invoke boom) [] trial
      = Some (Throw (RetryError (Error "Failed after 5 retries: boom") 6 3000),
              w') /\
      calls w' = 6%nat).
Proof.
  split.
  - exact (retry_error_carries_the_retrier_error string default_mechanism
             (fun _ => thrown_error (Error "boom")) [] sample_world 6%nat
             (Nat.lt_succ_diag_r 5)).
  - exact (retry_error_carries_the_retrier_error string default_mechanism
             (fun _ => thrown_error (Error "boom")) []
             (set_breaker (mkBreaker 5 1000 5 OPEN (Some 0)) sample_world)
             6%nat (Nat.lt_succ_diag_r 5)).
Defined.

(** C2: a breaker built with [failureThreshold: 3] is Open after three
    failing calls.  From then on a call whose clock reading is less than
    [resetTimeout] after the last failure is rejected with the circuit-open
    error without running its function; a call made later passes the gate
    in the HalfOpen state and invokes the operation once: if that succeeds
    the breaker is Closed with no failures counted, if it fails the breaker
    is Open again. *)
Theorem breaker_with_threshold_three :
  forall (A : Type) rt (errs : nat -> JsError) w,
    let cb := CircuitBreaker.constructor
                (Some (mkCircuitBreakerOptions (Some 3) rt)) in
    let call := CircuitBreaker.execute (A := A) (invoke (failing errs)) in
    let t3 := clock w (2 + ticks w)%nat in
    state cb = CLOSED /\
    exists w3,
      run_calls [call; call; call] (set_breaker cb w)
      = Some ([Throw (errs (calls w)); Throw (errs (1 + calls w)%nat);
               Throw (errs (2 + calls w)%nat)], w3) /\
      state (breaker w3) = OPEN /\
      failures (breaker w3) = 3 /\
      lastFailureTime (breaker w3) = Some t3 /\
      (forall (fn : M A) v,
          breaker v = breaker w3 ->
          clock v (ticks v) - t3 < resetTimeout cb ->
          CircuitBreaker.execute fn v
          = Some (Throw (Error "Circuit breaker is OPEN"),
                  set_ticks (S (ticks v)) v)) /\
      (forall v,
          breaker v = breaker w3 ->
          clock v (ticks v) - t3 >= resetTimeout cb ->
          (exists vg,
              CircuitBreaker.gate v = Some (Return tt, vg) /\
              state (breaker vg) = HALF_OPEN /\ calls vg = calls v) /\
          (forall (op : Operation A) a,
              op (calls v) = Return a ->
              exists v',
                CircuitBreaker.execute (invoke op) v = Some (Return a, v') /\
                calls v' = S (calls v) /\
                state (breaker v') = CLOSED /\
                failures (breaker v') = 0) /\
          (forall (op : Operation A) e,
              op (calls v) = Throw e ->
              exists v',
                CircuitBreaker.execute (invoke op) v = Some (Throw e, v') /\
                calls v' = S (calls v) /\
                state (breaker v') = OPEN)).
Proof.
  intros A rt errs w cb call t3. split; [reflexivity|].
  assert (Hcall : forall v, state (breaker v) <> OPEN ->
            call v = Some (Throw (errs (calls v)),
                           set_breaker
                             (record_failure (clock v (ticks v)) (breaker v))
                             (set_ticks (S (ticks v))
                                (set_calls (S (calls v)) v)))).
  { intros v Hv. unfold call.
    now rewrite (breaker_counts_throw _ v (errs (calls v))
                   (set_calls (S (calls v)) v) Hv eq_refl). }
  eexists. split.
  { cbn [run_calls].
    rewrite Hcall by discriminate.
    rewrite Hcall by discriminate.
    rewrite Hcall by discriminate.
    reflexivity. }
  cbn. split; [reflexivity|]. split; [reflexivity|]. split; [reflexivity|].
  split.
  - intros fn v Hb Hlt.
    apply open_rejects; rewrite Hb; [reflexivity | exact Hlt].
  - intros v Hb Hge. split; [|split].
    + eexists. split; [|split].
      * apply open_admits_trial; rewrite Hb; [reflexivity | exact Hge].
      * reflexivity.
      * reflexivity.
    + intros op a Hop. eexists. split; [|split; [|split]].
      * apply trial_success; try exact Hop; rewrite Hb;
          [reflexivity | exact Hge].
      * reflexivity.
      * reflexivity.
      * reflexivity.
    + intros op e Hop. eexists. split; [|split].
      * apply trial_failure; try exact Hop; rewrite Hb;
          [reflexivity | exact Hge].
      * reflexivity.
      * cbn. rewrite Hb. reflexivity.
Qed.

Lemma breaker_with_threshold_three_witness :
  let cb := CircuitBreaker.constructor
              (Some (mkCircuitBreakerOptions (Some 3) None)) in
  let call := CircuitBreaker.execute (invoke boom) in
  exists w3 v' v'',
    run_calls [call; call; call] (set_breaker cb sample_world)
    = Some ([Throw (Error "boom"); Throw (Error "boom"); Throw (Error "boom")],
            w3) /\
    CircuitBreaker.execute (invoke flaky) w3
    = Some (Throw (Error "Circuit breaker is OPEN"),
            set_ticks (S (ticks w3)) w3) /\
    CircuitBreaker.execute (invoke flaky) (set_ticks 100 w3)
    = Some (Return "ok", v') /\
    state (breaker v') = CLOSED /\ failures (breaker v') = 0 /\
    CircuitBreaker.execute (invoke boom) (set_ticks 100 w3)
    = Some (Throw (Error "boom"), v'') /\
    state (breaker v'') = OPEN.
Proof.
  intros cb call.
  destruct (breaker_with_threshold_three string None (fun _ => Error "boom")
              sample_world)
    as (_ & w3 & Hrun & _ & _ & _ & Hrej & Hadm).
  assert (Hw3 : set_breaker (mkBreaker 3 60000 3 OPEN (Some 2000))
                  (set_calls 3 (set_ticks 3 sample_world)) = w3).
  { vm_compute in Hrun. injection Hrun as Hw. rewrite <- Hw. reflexivity. }
  destruct (Hadm (set_ticks 100 w3)) as (_ & Hok & Hko);
    [reflexivity | rewrite <- Hw3; vm_compute; discriminate |].
  destruct (Hok flaky "ok") as (v' & Hrun' & _ & Hst' & Hf');
    [rewrite <- Hw3; reflexivity |].
  destruct (Hko boom (Error "boom")) as (v'' & Hrun'' & _ & Hst'');
    [reflexivity |].
  exists w3, v', v''.
  split; [exact Hrun|].
  split; [apply Hrej; [reflexivity | rewrite <- Hw3; reflexivity]|].
  split; [exact Hrun'|]. split; [exact Hst'|]. split; [exact Hf'|].
  split; [exact Hrun'' | exact Hst''].
Defined.

(** ** Failures counted while the breaker is Closed *)

Lemma closed_success_leaves_breaker {A : Type} (op : Operation A) w a :
  state (breaker w) = CLOSED ->
  op (calls w) = Return a ->
  CircuitBreaker.execute (invoke op) w
  = Some (Return a, set_calls (S (calls w)) w).
Proof.
  intros Hst Hop.
  apply breaker_passes_return; [congruence | | exact Hst].
  unfold invoke. now rewrite Hop.
Qed.

(** As long as fewer than [failureThreshold] of the calls made so far
    failed, the breaker stays Closed and its counter is the number of
    failed calls, successes in between or not. *)
Lemma closed_breaker_accumulates {A : Type} (op : Operation A) :
  forall n w,
    state (breaker w) = CLOSED ->
    failures (breaker w) + failed_among op (calls w) n
      < failureThreshold (breaker w) ->
    exists rs w',
      run_calls (repeat (CircuitBreaker.execute (invoke op)) n) w
      = Some (rs, w') /\
      state (breaker w') = CLOSED /\
      failures (breaker w') = failures (breaker w) + failed_among op (calls w) n /\
      failureThreshold (breaker w') = failureThreshold (breaker w) /\
      calls w' = (calls w + n)%nat.
Proof.
  assert (Hnonneg : forall n c, 0 <= failed_among op c n).
  { induction n as [|n IH]; intros c; cbn [failed_among]; [lia|].
    specialize (IH (S c)). destruct (is_throw (op c)); lia. }
  induction n as [|n IH]; intros w Hst Hlt.
  - exists [], w. cbn. repeat split; try assumption; lia.
  - cbn [repeat run_calls failed_among] in *.
    specialize (Hnonneg n (S (calls w))).
    destruct (op (calls w)) as [a|e] eqn:Hop; cbn [is_throw] in *.
    + rewrite (closed_success_leaves_breaker op w a Hst Hop).
      destruct (IH (set_calls (S (calls w)) w)) as (rs & w' & Hrun & H1 & H2 & H3 & H4);
        [exact Hst | cbn; lia |].
      cbn in H2, H3, H4. rewrite Hrun.
      exists (Return a :: rs), w'. repeat split; try assumption; lia.
    + assert (Hfn : invoke op w = Some (Throw e, set_calls (S (calls w)) w))
        by (unfold invoke; now rewrite Hop).
      rewrite (breaker_counts_throw _ w e _ ltac:(congruence) Hfn).
      set (w1 := set_breaker _ _).
      assert (Hb1 : state (breaker w1) = CLOSED /\
                    failures (breaker w1) = failures (breaker w) + 1 /\
                    failureThreshold (breaker w1) = failureThreshold (breaker w)).
      { unfold w1, record_failure. cbn.
        destruct (_ >=? _) eqn:E; [apply Z.geb_le in E; lia|].
        cbn. now rewrite Hst. }
      destruct Hb1 as (Hs1 & Hf1 & Ht1).
      assert (Hc1 : calls w1 = S (calls w)) by reflexivity.
      destruct (IH w1) as (rs & w' & Hrun & H1 & H2 & H3 & H4);
        [exact Hs1 | rewrite Hf1, Ht1, Hc1; lia |].
      rewrite Hrun. exists (Throw e :: rs), w'.
      rewrite H2, H3, H4, Hf1, Ht1, Hc1.
      repeat split; try assumption; lia.
Qed.

(** C9: a call that succeeds while the breaker is Closed changes none of
    its fields, so the counter keeps the failures of earlier calls: when
    [failureThreshold] of the first [n + 1] calls fail, the last of them
    being call [n], the breaker is Open after it, whatever successes lie
    in between. *)
Theorem closed_successes_do_not_reset_the_counter :
  forall (A : Type) (op : Operation A) threshold rt w n,
    0 < threshold ->
    failed_among op (calls w) n = threshold - 1 ->
    is_throw (op (calls w + n)%nat) = true ->
    let cb := CircuitBreaker.constructor
                (Some (mkCircuitBreakerOptions (Some threshold) rt)) in
    (forall v a,
        state (breaker v) = CLOSED ->
        op (calls v) = Return a ->
        exists v',
          CircuitBreaker.execute (invoke op) v = Some (Return a, v') /\
          breaker v' = breaker v) /\
    exists rs wn r w',
      run_calls (repeat (CircuitBreaker.execute (invoke op)) n)
        (set_breaker cb w) = Some (rs, wn) /\
      state (breaker wn) = CLOSED /\
      failures (breaker wn) = threshold - 1 /\
      CircuitBreaker.execute (invoke op) wn = Some (r, w') /\
      failures (breaker w') = threshold /\
      state (breaker w') = OPEN.
Proof.
  intros A op threshold rt w n Hpos Hcount Hlast cb. split.
  { intros v a Hst Hop. eexists. split;
      [now apply closed_success_leaves_breaker | reflexivity]. }
  assert (Hth : failureThreshold cb = threshold).
  { cbn. unfold js_or, truthy, Truthy_Z.
    destruct (threshold =? 0) eqn:E; [apply Z.eqb_eq in E; lia | reflexivity]. }
  destruct (closed_breaker_accumulates op n (set_breaker cb w))
    as (rs & wn & Hrun & Hst & Hf & Ht & Hc);
    [reflexivity | cbn [breaker set_breaker calls]; rewrite Hth, Hcount;
                   cbn; lia |].
  cbn [breaker set_breaker calls] in Hf, Ht, Hc.
  rewrite Hcount in Hf. change (failures cb) with 0 in Hf.
  destruct (op (calls w + n)%nat) as [a|e] eqn:Hop; [discriminate|].
  rewrite <- Hc in Hop.
  assert (Hfn : invoke op wn = Some (Throw e, set_calls (S (calls wn)) wn))
    by (unfold invoke; now rewrite Hop).
  exists rs, wn, (Throw e). eexists.
  split; [exact Hrun|]. split; [exact Hst|]. split; [lia|].
  split; [apply (breaker_counts_throw _ wn e _ ltac:(congruence) Hfn)|].
  unfold record_failure. cbn. rewrite Hf, Ht, Hth.
  assert (E : (0 + (threshold - 1) + 1 >=? threshold) = true)
    by (apply Z.geb_le; lia).
  rewrite E. cbn. split; [lia | reflexivity].
Qed.

Lemma closed_successes_do_not_reset_the_counter_witness :
  exists rs wn r w',
    run_calls (repeat (CircuitBreaker.execute (invoke flaky)) 2)
      (set_breaker
         (CircuitBreaker.constructor
            (Some (mkCircuitBreakerOptions (Some 2) None)))
         sample_world)
    = Some (rs, wn) /\
    state (breaker wn) = CLOSED /\
    failures (breaker wn) = 1 /\
    CircuitBreaker.execute (invoke flaky) wn = Some (r, w') /\
    failures (breaker w') = 2 /\
    state (breaker w') = OPEN.
Proof.
  exact (proj2 (closed_successes_do_not_reset_the_counter
                  string flaky 2 None sample_world 2%nat
                  eq_refl eq_refl eq_refl)).
Defined.

(** ** The delay *)

(** C10: whatever the options are, [jitter: false] among them, the
    constructed object has [jitter] true, and every [calculateDelay] draws
    a random number and multiplies the delay by [0.5 + Math.random()]. *)
Theorem jitter_is_always_enabled :
  forall options,
    let self := ExponentialBackoffRetry.constructor options in
    jitter self = true /\
    forall retryCount w,
      ExponentialBackoffRetry.calculateDelay self retryCount w
      = Some (Return (Qmin (maxDelay self) ((2 ^ retryCount) * baseDelay self)
                      * ((1 # 2) + random w (draws w)))%Q,
              set_draws (S (draws w)) w).
Proof.
  intros options self.
  assert (Hj : jitter self = true).
  { unfold self, ExponentialBackoffRetry.constructor. cbn.
    destruct options as [[bd md mr [[|]|]]|]; reflexivity. }
  split; [exact Hj|]. intros retryCount w.
  unfold ExponentialBackoffRetry.calculateDelay. now rewrite Hj.
Qed.

(** C8, as stated, fails: a failed attempt is logged under the name
    [retry_failure], which is none of the three names of the
    specification. *)
Lemma failure_event_name_outside_specification :
  exists r w' e,
    RetryMechanism.execute 6 default_mechanism (invoke boom) [] sample_world
    = Some (r, w') /\
    In e (sink w') /\
    ~ spec_event_name (ev_event e).
Proof.
  do 3 eexists. split; [vm_compute; reflexivity|]. split.
  - left. reflexivity.
  - cbn. intros [H|[H|H]]; discriminate H.
Qed.

(** C8, amended: every event the logger receives is named [retry_failure]
    or [retry_success].  An attempt in which the operation throws an error
    object logs one [retry_failure] event with its message and then
    rethrows it to the retry loop; an attempt in which the operation
    throws [null] or [undefined] logs nothing, since reading the message
    fails, and throws that [TypeError] instead; an attempt in which the
    operation returns logs one [retry_success] event.  A whole call ends
    once the fuel exceeds [maxRetries] and logs exactly one such event
    for each invocation of the operation that returned or threw an error
    object, so nothing more on exhaustion. *)
Theorem events_are_retry_failure_or_retry_success :
  forall (A : Type) rm (op : Operation A) context w fuel,
    (Z.to_nat (maxRetries (retrier rm)) < fuel)%nat ->
    (forall startTime v (e : JsError),
        op (calls v) = Throw e ->
        exists v',
          RetryMechanism.attempt rm (invoke op) context startTime v
          = Some (Throw e, v') /\
          sink v' = sink v ++ [failure_event rm context (attempts v + 1) e]) /\
    (forall startTime v (n : Nullish),
        op (calls v) = Throw (thrown_nullish n) ->
        exists v',
          RetryMechanism.attempt rm (invoke op) context startTime v
          = Some (Throw (cannot_read n "message"), v') /\
          sink v' = sink v) /\
    (forall startTime v a,
        op (calls v) = Return a ->
        exists v',
          RetryMechanism.attempt rm (invoke op) context startTime v
          = Some (Return a, v') /\
          sink v' = sink v ++ [success_event rm context (attempts v + 1)
                                 (clock v (ticks v) - startTime)]) /\
    exists r w' evs n,
      RetryMechanism.execute fuel rm (invoke op) context w = Some (r, w') /\
      sink w' = sink w ++ evs /\
      Forall emitted_name evs /\
      calls w' = (calls w + n)%nat /\
      List.length evs = reported_among op (calls w) n.
Proof.
  intros A rm op context w fuel Hfuel. split; [|split; [|split]].
  - intros startTime v e Hop. eexists. split;
      [now apply attempt_throw | reflexivity].
  - intros startTime v n Hop. eexists. split;
      [exact (attempt_rejects rm op context startTime v _ Hop) | reflexivity].
  - intros startTime v a Hop. eexists. split;
      [now apply attempt_return | reflexivity].
  - destruct (mechanism_logs rm op context w fuel Hfuel)
      as (r & w' & Hrun & evs & n & Hs & Hf & Hc & Hl).
    now exists r, w', evs, n.
Qed.

Lemma events_are_retry_failure_or_retry_success_witness :
  exists r w' evs n,
    RetryMechanism.execute 6 default_mechanism (invoke moody) [] sample_world
    = Some (r, w') /\
    sink w' = sink sample_world ++ evs /\
    Forall emitted_name evs /\
    calls w' = (calls sample_world + n)%nat /\
    List.length evs = reported_among moody (calls sample_world) n.
Proof.
  exact (proj2 (proj2 (proj2 (events_are_retry_failure_or_retry_success
                         string default_mechanism moody [] sample_world 6%nat
                         (Nat.lt_succ_diag_r 5))))).
Defined.

(** * Further properties of the retry classes *)

(** ** A call on an open circuit *)

(** X1: while the breaker is Open and the timeout has not elapsed,
    [RetryMechanism.execute] fails with a [RetryError] that wraps the
    circuit-open error and has [attempts] 0: the function is not run,
    nothing is logged, no delay is waited and the breaker is unchanged;
    only the clock is read, three times. *)
Theorem open_circuit_short_circuits_the_retries :
  forall (A : Type) fuel rm (fn : M A) context w,
    state (breaker w) = OPEN ->
    clock w (S (ticks w)) - to_number (lastFailureTime (breaker w))
      < resetTimeout (breaker w) ->
    RetryMechanism.execute fuel rm fn context w
    = Some (Throw (RetryError (Error "Circuit breaker is OPEN") 0
                     (clock w (S (S (ticks w))) - clock w (ticks w))),
            set_attempts 0 (set_ticks (3 + ticks w) w)).
Proof.
  intros A fuel rm fn context w Hst Hlt. rewrite execute_begins.
  set (w1 := set_attempts 0 (set_ticks (S (ticks w)) w)).
  assert (Hrej := open_rejects
                    (ExponentialBackoffRetry.execute fuel (retrier rm)
                       (RetryMechanism.attempt rm fn context
                          (clock w (ticks w)))) w1 Hst Hlt).
  rewrite (try_catch_throw _ _ _ _ _ Hrej). reflexivity.
Qed.

Lemma open_circuit_short_circuits_the_retries_witness :
  let w := set_breaker (mkBreaker 5 60000 5 OPEN (Some 0)) sample_world in
  RetryMechanism.execute 0 default_mechanism (invoke boom) [] w
  = Some (Throw (RetryError (Error "Circuit breaker is OPEN") 0 2000),
          set_attempts 0 (set_ticks 3 w)).
Proof.
  exact (open_circuit_short_circuits_the_retries
           string 0%nat default_mechanism (invoke boom) []
           (set_breaker (mkBreaker 5 60000 5 OPEN (Some 0)) sample_world)
           eq_refl eq_refl).
Defined.

(** ** An operation that recovers *)

Section RetryRecovers.

Context {A : Type}.
Variable self : ExponentialBackoffRetryObj.
Variable fn : M A.
Variable k : nat.
Variable a : A.
Variable err : World -> JsError.
Variable next : World -> World.
Variable fin : World -> World.
Variable P : nat -> World -> Prop.

Hypothesis fn_throws :
  forall j w, (j < k)%nat -> P j w -> fn w = Some (Throw (err w), next w).
Hypothesis P_step :
  forall j r w, (j < k)%nat -> P j w -> P (S j) (pause self r (next w)).
Hypothesis fn_returns :
  forall w, P k w -> fn w = Some (Return a, fin w).

(** When the function throws [k] times and then returns, and [k] retries
    are allowed, the loop returns what the function returned. *)
Lemma loop_recovers :
  forall m j fuel retries w,
    (j + m)%nat = k ->
    P j w ->
    (m < fuel)%nat ->
    retries + Z.of_nat m <= maxRetries self ->
    exists w',
      P k w' /\
      ExponentialBackoffRetry.loop fuel self fn retries w
      = Some (Return a, fin w').
Proof.
  induction m as [|m IH]; intros j fuel retries w Hk HP Hfuel Hmax;
    (destruct fuel as [|fuel]; [lia|]); cbn [ExponentialBackoffRetry.loop].
  - assert (j = k) by lia. subst j.
    rewrite (try_catch_return _ _ _ _ _ (fn_returns w HP)). now exists w.
  - rewrite (try_catch_throw _ _ _ _ _ (fn_throws j w ltac:(lia) HP)).
    assert (Hlt : (retries >=? maxRetries self) = false).
    { destruct (retries >=? maxRetries self) eqn:E; [|reflexivity].
      apply Z.geb_le in E. lia. }
    rewrite Hlt, pause_step.
    apply (IH (S j)); [lia | apply P_step; [lia | exact HP] | lia | lia].
Qed.

End RetryRecovers.

Lemma retried_step self rm context t w0 j r w :
  retried w0 j w ->
  retried w0 (S j) (pause self r (after_rejection rm context t w)).
Proof.
  unfold retried, attempts_made, pause, after_rejection, after_failure.
  intros ((Hc & Ha & Hb & Ht & Hk & Hr) & Hl).
  destruct t, (jitter self); cbn; rewrite ?length_app; cbn;
    repeat split; try assumption; lia.
Qed.

(** X2: an operation that throws on its first [k] invocations and then
    returns, called through a mechanism that allows at least [k]
    retries while the breaker is Closed: the call returns the operation's
    value after exactly [k + 1] invocations and [k] waits, and the breaker
    is left as it was, so none of the inner failures is counted. *)
Theorem recovered_call_returns_and_counts_no_failure :
  forall (A : Type) rm (op : Operation A) context w k a fuel,
    state (breaker w) = CLOSED ->
    (forall j, (j < k)%nat -> is_throw (op (calls w + j)%nat) = true) ->
    op (calls w + k)%nat = Return a ->
    Z.of_nat k <= maxRetries (retrier rm) ->
    (k < fuel)%nat ->
    exists w',
      RetryMechanism.execute fuel rm (invoke op) context w
      = Some (Return a, w') /\
      calls w' = (calls w + S k)%nat /\
      breaker w' = breaker w /\
      List.length (timers w') = (List.length (timers w) + k)%nat.
Proof.
  intros A rm op context w k a fuel Hst Hfail Hok Hmax Hfuel.
  rewrite execute_begins.
  set (startTime := clock w (ticks w)).
  set (w1 := set_attempts 0 (set_ticks (S (ticks w)) w)).
  set (fn := RetryMechanism.attempt rm (invoke op) context startTime).
  pose (err := fun v : World =>
                 match op (calls v) with
                 | Throw t => entering t
                 | Return _ => Error ""
                 end).
  pose (next := fun v : World =>
                  match op (calls v) with
                  | Throw t => after_rejection rm context t v
                  | Return _ => v
                  end).
  destruct (loop_recovers (retrier rm) fn k a err next
              (after_success rm context startTime)
              (retried w1))
    with (m := k) (j := 0%nat) (fuel := fuel) (retries := 0) (w := w1)
    as (w2 & ((Hc & Ha & Hb & Ht & Hk & Hr) & Hl) & Hloop).
  - intros j v Hj ((Hc & _) & _). unfold fn, err, next.
    specialize (Hfail j Hj). cbn in Hc. rewrite <- Hc in Hfail.
    destruct (op (calls v)) as [x|t] eqn:Hop; [discriminate|].
    now apply attempt_rejects.
  - intros j r v Hj Hv. unfold next.
    pose proof (Hfail j Hj) as Hf. destruct Hv as ((Hc & Hv1) & Hv2).
    cbn in Hc. rewrite <- Hc in Hf.
    destruct (op (calls v)) as [x|t] eqn:Hop; [discriminate|].
    apply retried_step. now repeat split.
  - intros v ((Hc & _) & _). unfold fn. apply attempt_return.
    cbn in Hc. now rewrite Hc.
  - reflexivity.
  - unfold retried, attempts_made. repeat split; lia.
  - exact Hfuel.
  - lia.
  - cbn in Hc, Ha, Hb, Ht, Hk, Hr, Hl.
    assert (Hcb :
      CircuitBreaker.execute
        (ExponentialBackoffRetry.execute fuel (retrier rm) fn) w1
      = Some (Return a, after_success rm context startTime w2)).
    { apply breaker_passes_return;
        [cbn; congruence | exact Hloop | cbn; congruence]. }
    rewrite (try_catch_return _ _ _ _ _ Hcb).
    eexists. split; [reflexivity|]. cbn. repeat split; try assumption; lia.
Qed.

Lemma recovered_call_returns_and_counts_no_failure_witness :
  exists w',
    RetryMechanism.execute 3 default_mechanism (invoke (fails_then 2)) []
      sample_world
    = Some (Return "ok", w') /\
    calls w' = 3%nat /\
    breaker w' = breaker sample_world /\
    List.length (timers w') = 2%nat.
Proof.
  apply (recovered_call_returns_and_counts_no_failure
           string default_mechanism (fails_then 2) [] sample_world 2%nat "ok"
           3%nat).
  - reflexivity.
  - intros [|[|j]] Hj; [reflexivity | reflexivity | lia].
  - reflexivity.
  - cbn. lia.
  - lia.
Defined.

(** ** The breaker between calls *)

(** A call through the breaker whose function leaves the breaker alone
    takes a settled breaker to a settled breaker and keeps its
    configuration. *)
Lemma execute_keeps_settled {A : Type} (fn : M A) w r w' :
  settled (breaker w) ->
  (forall v r1 v1, fn v = Some (r1, v1) -> breaker v1 = breaker v) ->
  CircuitBreaker.execute fn w = Some (r, w') ->
  settled (breaker w') /\
  failureThreshold (breaker w') = failureThreshold (breaker w) /\
  resetTimeout (breaker w') = resetTimeout (breaker w).
Proof.
  intros (Hnh & Hop) Hfn. unfold CircuitBreaker.execute, settled.
  destruct (state (breaker w)) eqn:Hst; [| |now elim Hnh].
  - rewrite (bind_return _ _ _ _ _ (gate_admits w ltac:(congruence))).
    unfold try_catch, CircuitBreaker.attempt, bind.
    destruct (fn w) as [[[x|e] v1]|] eqn:Hrun; [| |discriminate];
      pose proof (Hfn _ _ _ Hrun) as Hb.
    + unfold CircuitBreaker.this, gets, ret. cbn. rewrite Hb, Hst.
      intros H; injection H as <- <-. rewrite Hb, Hst.
      repeat split; congruence.
    + unfold CircuitBreaker.on_error, CircuitBreaker.assign,
        CircuitBreaker.this, bind, modify, gets, Date_now, throw, ret. cbn.
      rewrite Hb.
      destruct (_ >=? _) eqn:E; intros H; injection H as <- <-; cbn;
        rewrite ?Hst; repeat split; try congruence.
      intros _. apply Z.geb_le in E. exact E.
  - destruct (clock w (ticks w) - to_number (lastFailureTime (breaker w))
              >=? resetTimeout (breaker w)) eqn:E.
    + assert (Hge : clock w (ticks w) - to_number (lastFailureTime (breaker w))
                    >= resetTimeout (breaker w))
        by (apply Z.geb_le in E; lia).
      rewrite (bind_return _ _ _ _ _ (open_admits_trial w Hst Hge)).
      set (wg := set_breaker _ _).
      unfold try_catch, CircuitBreaker.attempt, bind.
      destruct (fn wg) as [[[x|e] v1]|] eqn:Hrun; [| |discriminate];
        pose proof (Hfn _ _ _ Hrun) as Hb; cbn in Hb.
      * unfold CircuitBreaker.this, CircuitBreaker.assign, gets, modify, ret.
        cbn. rewrite Hb. cbn.
        intros H; injection H as <- <-. cbn. rewrite Hb. cbn.
        repeat split; congruence.
      * unfold CircuitBreaker.on_error, CircuitBreaker.assign,
          CircuitBreaker.this, bind, modify, gets, Date_now, throw, ret. cbn.
        rewrite Hb. cbn. specialize (Hop eq_refl).
        assert (E' : (failures (breaker w) + 1 >=? failureThreshold (breaker w))
                     = true) by (apply Z.geb_le; lia).
        rewrite E'. cbn. intros H; injection H as <- <-; cbn.
        repeat split; try congruence. intros _. lia.
    + assert (Hlt : clock w (ticks w) - to_number (lastFailureTime (breaker w))
                    < resetTimeout (breaker w)).
      { destruct (Z.lt_ge_cases
                    (clock w (ticks w) - to_number (lastFailureTime (breaker w)))
                    (resetTimeout (breaker w))) as [H|H]; [exact H|].
        apply Z.geb_le in H. congruence. }
      pose proof (open_rejects fn w Hst Hlt) as Hrej.
      unfold CircuitBreaker.execute in Hrej. rewrite Hrej.
      intros H; injection H as <- <-. cbn. rewrite Hst.
      repeat split; try congruence. intros _. now apply Hop.
Qed.

(** X3: the breaker of a mechanism is settled between calls.  A call made
    on a settled breaker, whatever the operation does, ends (given fuel
    above [maxRetries]) with the breaker settled again: never HalfOpen,
    and Open only with at least [failureThreshold] failures counted.  The
    threshold and the timeout are never written. *)
Theorem breaker_is_settled_after_every_call :
  forall (A : Type) rm (op : Operation A) context w fuel,
    settled (breaker w) ->
    (Z.to_nat (maxRetries (retrier rm)) < fuel)%nat ->
    exists r w',
      RetryMechanism.execute fuel rm (invoke op) context w = Some (r, w') /\
      settled (breaker w') /\
      failureThreshold (breaker w') = failureThreshold (breaker w) /\
      resetTimeout (breaker w') = resetTimeout (breaker w).
Proof.
  intros A rm op context w fuel Hset Hfuel.
  destruct (mechanism_logs rm op context w fuel Hfuel) as (r & w' & Hrun & _).
  exists r, w'. split; [exact Hrun|].
  rewrite execute_begins in Hrun.
  set (startTime := clock w (ticks w)) in *.
  set (w1 := set_attempts 0 (set_ticks (S (ticks w)) w)) in *.
  set (fn := ExponentialBackoffRetry.execute fuel (retrier rm)
               (RetryMechanism.attempt rm (invoke op) context startTime)) in *.
  assert (Hfn : forall v r1 v1, fn v = Some (r1, v1) -> breaker v1 = breaker v).
  { intros v r1 v1 H.
    destruct (loop_logs rm (retrier rm) op context startTime
                (Z.to_nat (maxRetries (retrier rm))) fuel 0 v)
      as (r2 & v2 & Hrun2 & _ & Hb); [f_equal; lia | exact Hfuel |].
    unfold fn, ExponentialBackoffRetry.execute in H. congruence. }
  unfold try_catch in Hrun.
  destruct (CircuitBreaker.execute fn w1) as [[[x|e] w2]|] eqn:Hcb;
    [| |discriminate];
    destruct (execute_keeps_settled fn w1 _ w2 Hset Hfn Hcb) as (H1 & H2 & H3).
  - injection Hrun as <- <-. split; [exact H1 | split; [exact H2 | exact H3]].
  - unfold bind, gets, Date_now, lift, throw in Hrun. cbn in Hrun.
    destruct (new_RetryError e _ _); injection Hrun as <- <-;
      (split; [exact H1 | split; [exact H2 | exact H3]]).
Qed.

Lemma breaker_is_settled_after_every_call_witness :
  exists r w',
    RetryMechanism.execute 6 default_mechanism (invoke flaky) [] sample_world
    = Some (r, w') /\
    settled (breaker w') /\
    failureThreshold (breaker w') = 5 /\
    resetTimeout (breaker w') = 60000.
Proof.
  apply (breaker_is_settled_after_every_call
           string default_mechanism flaky [] sample_world 6%nat).
  - split; [discriminate | intros H; discriminate H].
  - apply Nat.lt_succ_diag_r.
Defined.

(** X4: on a settled Open breaker whose timeout has elapsed, a trial call
    that fails reopens the breaker at once, whatever the threshold is: the
    failure is added to the count that opened it. *)
Theorem failed_trial_reopens_a_settled_breaker :
  forall (A : Type) (op : Operation A) w e,
    settled (breaker w) ->
    state (breaker w) = OPEN ->
    clock w (ticks w) - to_number (lastFailureTime (breaker w))
      >= resetTimeout (breaker w) ->
    op (calls w) = Throw e ->
    exists w',
      CircuitBreaker.execute (invoke op) w = Some (Throw e, w') /\
      state (breaker w') = OPEN /\
      failures (breaker w') = failures (breaker w) + 1 /\
      lastFailureTime (breaker w') = Some (clock w (S (ticks w))) /\
      calls w' = S (calls w).
Proof.
  intros A op w e (_ & Hop) Hst Hge Hthrow. specialize (Hop Hst).
  eexists. split; [now apply trial_failure|].
  unfold record_failure. cbn.
  assert (E : (failures (breaker w) + 1 >=? failureThreshold (breaker w)) = true)
    by (apply Z.geb_le; lia).
  rewrite E. now repeat split.
Qed.

Lemma failed_trial_reopens_a_settled_breaker_witness :
  let w := set_ticks 100
             (set_breaker (mkBreaker 5 60000 5 OPEN (Some 0)) sample_world) in
  exists w',
    CircuitBreaker.execute (invoke boom) w = Some (Throw (Error "boom"), w') /\
    state (breaker w') = OPEN /\
    failures (breaker w') = 6 /\
    lastFailureTime (breaker w') = Some 101000 /\
    calls w' = 1%nat.
Proof.
  apply (failed_trial_reopens_a_settled_breaker string boom
           (set_ticks 100
              (set_breaker (mkBreaker 5 60000 5 OPEN (Some 0)) sample_world))
           (Error "boom")).
  - split; [discriminate | intros _; cbn; lia].
  - reflexivity.
  - vm_compute. discriminate.
  - reflexivity.
Defined.

(** ** The delays between attempts *)

Lemma waited_shift self retries errs_calls w i :
  waited self (retries + 1)
    (pause self retries (set_calls errs_calls w)) i
  = waited self retries w (S i).
Proof.
  unfold waited, pause.
  replace (retries + 1 + Z.of_nat i) with (retries + Z.of_nat (S i)) by lia.
  destruct (jitter self); cbn; [|reflexivity].
  now rewrite Nat.add_succ_r.
Qed.

Lemma timers_after_pause self retries n w :
  timers (pause self retries (set_calls n w))
  = timers w ++ [waited self retries w 0].
Proof.
  unfold waited, pause. cbn [Z.of_nat]. rewrite Z.add_0_r, Nat.add_0_r.
  now destruct (jitter self).
Qed.

Lemma loop_waits {A : Type} self (errs : nat -> JsError) :
  forall n fuel retries w,
    n = Z.to_nat (maxRetries self - retries) ->
    (n < fuel)%nat ->
    exists (e : JsError) w',
      ExponentialBackoffRetry.loop (A := A) fuel self (invoke (failing errs))
        retries w
      = Some (Throw e, w') /\
      timers w' = timers w ++ map (waited self retries w) (seq 0 n) /\
      calls w' = (calls w + S n)%nat.
Proof.
  induction n as [|n IH]; intros fuel retries w Hn Hfuel;
    (destruct fuel as [|fuel]; [lia|]); cbn [ExponentialBackoffRetry.loop];
    rewrite (try_catch_throw (invoke (failing errs)) _ w (errs (calls w))
               (set_calls (S (calls w)) w) eq_refl).
  - rewrite gives_up by congruence. do 2 eexists.
    split; [reflexivity|]. cbn. rewrite app_nil_r. split; [reflexivity | lia].
  - rewrite (goes_on self retries n) by congruence. rewrite pause_step.
    destruct (IH fuel (retries + 1)
                (pause self retries (set_calls (S (calls w)) w)))
      as (e & w' & Hrun & Ht & Hc); [lia | lia |].
    exists e, w'. split; [exact Hrun|]. split.
    + rewrite Ht, timers_after_pause, <- app_assoc. f_equal.
      cbn [seq map app]. f_equal.
      rewrite <- seq_shift, map_map. apply map_ext.
      intros i. apply waited_shift.
    + rewrite Hc. unfold pause. destruct (jitter self); cbn; lia.
Qed.

(** X5: when every attempt fails the retrier waits exactly [maxRetries]
    times, once after each failed attempt but the last; the [i]-th wait is
    the capped exponential delay for index [i], under jitter multiplied by
    0.5 plus a draw of its own. *)
Theorem exhausted_retrier_waits_once_per_retry :
  forall (A : Type) self (errs : nat -> JsError) w fuel,
    (Z.to_nat (maxRetries self) < fuel)%nat ->
    let n := Z.to_nat (maxRetries self) in
    exists (e : JsError) w',
      ExponentialBackoffRetry.execute (A := A) fuel self
        (invoke (failing errs)) w
      = Some (Throw e, w') /\
      timers w' = timers w ++ map (waited self 0 w) (seq 0 n) /\
      calls w' = (calls w + S n)%nat.
Proof.
  intros A self errs w fuel Hfuel n.
  apply loop_waits; [subst n; f_equal; lia | exact Hfuel].
Qed.

Lemma exhausted_retrier_waits_once_per_retry_witness :
  exists (e : JsError) w',
    ExponentialBackoffRetry.execute 3 (mkRetrier (1000 # 1) (1500 # 1) 2 false)
      (invoke boom) sample_world
    = Some (Throw e, w') /\
    timers w' = [Qmin (1500 # 1) (2 ^ 0 * (1000 # 1));
                 Qmin (1500 # 1) (2 ^ 1 * (1000 # 1))]%Q /\
    calls w' = 3%nat.
Proof.
  exact (exhausted_retrier_waits_once_per_retry string
           (mkRetrier (1000 # 1) (1500 # 1) 2 false)
           (fun _ => Error "boom") sample_world 3%nat (Nat.lt_succ_diag_r 2)).
Defined.

(** ** Exhausted calls and the threshold *)

(** While fewer than [failureThreshold] calls have been exhausted the
    breaker stays Closed and counts one failure for each of them. *)
Lemma exhausted_calls_accumulate {A : Type} rm (errs : nat -> JsError)
    context fuel :
  (Z.to_nat (maxRetries (retrier rm)) < fuel)%nat ->
  forall m w,
    state (breaker w) = CLOSED ->
    failures (breaker w) + Z.of_nat m < failureThreshold (breaker w) ->
    exists rs w',
      run_calls
        (repeat (RetryMechanism.execute (A := A) fuel rm
                   (invoke (failing errs)) context) m) w
      = Some (rs, w') /\
      state (breaker w') = CLOSED /\
      failures (breaker w') = failures (breaker w) + Z.of_nat m /\
      failureThreshold (breaker w') = failureThreshold (breaker w) /\
      calls w' = (calls w + m * S (Z.to_nat (maxRetries (retrier rm))))%nat.
Proof.
  intros Hfuel. induction m as [|m IH]; intros w Hst Hlt.
  - exists [], w. cbn. repeat split; try assumption; lia.
  - cbn [repeat run_calls].
    destruct (mechanism_exhausts (A := A) rm errs context w fuel
                ltac:(congruence) Hfuel)
      as (w1 & Hrun & Hc & Hb & _).
    cbv zeta in Hrun, Hc. rewrite Hrun.
    assert (Hb1 : state (breaker w1) = CLOSED /\
                  failures (breaker w1) = failures (breaker w) + 1 /\
                  failureThreshold (breaker w1) = failureThreshold (breaker w)).
    { rewrite Hb. unfold record_failure. cbn.
      destruct (_ >=? _) eqn:E; [apply Z.geb_le in E; lia|].
      cbn. now rewrite Hst. }
    destruct Hb1 as (Hs1 & Hf1 & Ht1).
    destruct (IH w1) as (rs & w' & Hrun' & H1 & H2 & H3 & H4);
      [exact Hs1 | rewrite Hf1, Ht1; lia |].
    rewrite Hrun'. eexists _, w'. split; [reflexivity|].
    rewrite H2, H3, H4, Hf1, Ht1, Hc. repeat split; try assumption; lia.
Qed.

(** X7: from a Closed breaker that has counted [f] failures, the call
    that brings the number of exhausted calls to [failureThreshold - f]
    opens the circuit, whatever [maxRetries] is: each exhausted call
    invokes the operation [maxRetries + 1] times and counts once. *)
Theorem exhausted_calls_open_the_circuit_at_the_threshold :
  forall (A : Type) rm (errs : nat -> JsError) context fuel m w,
    (Z.to_nat (maxRetries (retrier rm)) < fuel)%nat ->
    state (breaker w) = CLOSED ->
    failures (breaker w) + Z.of_nat (S m) = failureThreshold (breaker w) ->
    let call := RetryMechanism.execute (A := A) fuel rm
                  (invoke (failing errs)) context in
    let n := Z.to_nat (maxRetries (retrier rm)) in
    exists rs wm (r : JsError) w',
      run_calls (repeat call m) w = Some (rs, wm) /\
      state (breaker wm) = CLOSED /\
      calls wm = (calls w + m * S n)%nat /\
      call wm = Some (Throw r, w') /\
      state (breaker w') = OPEN /\
      failures (breaker w') = failureThreshold (breaker w) /\
      calls w' = (calls w + S m * S n)%nat.
Proof.
  intros A rm errs context fuel m w Hfuel Hst Hsum call n.
  destruct (exhausted_calls_accumulate (A := A) rm errs context fuel Hfuel m w)
    as (rs & wm & Hrun & Hsm & Hfm & Htm & Hcm); [exact Hst | lia |].
  destruct (mechanism_exhausts (A := A) rm errs context wm fuel
              ltac:(congruence) Hfuel)
    as (w' & Hrun' & Hc' & Hb' & _).
  cbv zeta in Hrun', Hc'.
  exists rs, wm. do 2 eexists.
  split; [exact Hrun|]. split; [exact Hsm|]. split; [exact Hcm|].
  split; [exact Hrun'|].
  rewrite Hb', Hc', Hcm. unfold record_failure. cbn.
  assert (E : (failures (breaker wm) + 1 >=? failureThreshold (breaker wm))
              = true) by (apply Z.geb_le; lia).
  rewrite E. cbn. repeat split; lia.
Qed.

Lemma exhausted_calls_open_the_circuit_at_the_threshold_witness :
  let call := RetryMechanism.execute 6 default_mechanism (invoke boom) [] in
  exists rs wm (r : JsError) w',
    run_calls (repeat call 4) sample_world = Some (rs, wm) /\
    state (breaker wm) = CLOSED /\
    calls wm = 24%nat /\
    call wm = Some (Throw r, w') /\
    state (breaker w') = OPEN /\
    failures (breaker w') = 5 /\
    calls w' = 30%nat.
Proof.
  exact (exhausted_calls_open_the_circuit_at_the_threshold
           string default_mechanism (fun _ => Error "boom") [] 6%nat 4%nat
           sample_world (Nat.lt_succ_diag_r 5) eq_refl eq_refl).
Defined.

(** ** A trial that recovers *)

(** The retry loop of a mechanism on an operation that throws [k] times
    from world [v] on and then returns. *)
Lemma mechanism_loop_recovers {A : Type} rm (op : Operation A) context
    startTime v k a fuel :
  (forall j, (j < k)%nat -> is_throw (op (calls v + j)%nat) = true) ->
  op (calls v + k)%nat = Return a ->
  Z.of_nat k <= maxRetries (retrier rm) ->
  (k < fuel)%nat ->
  exists v2,
    retried v k v2 /\
    ExponentialBackoffRetry.execute fuel (retrier rm)
      (RetryMechanism.attempt rm (invoke op) context startTime) v
    = Some (Return a, after_success rm context startTime v2).
Proof.
  intros Hfail Hok Hmax Hfuel.
  pose (err := fun u : World =>
                 match op (calls u) with
                 | Throw t => entering t
                 | Return _ => Error ""
                 end).
  pose (next := fun u : World =>
                  match op (calls u) with
                  | Throw t => after_rejection rm context t u
                  | Return _ => u
                  end).
  apply (loop_recovers (retrier rm)
           (RetryMechanism.attempt rm (invoke op) context startTime) k a err
           next
           (after_success rm context startTime)
           (retried v))
    with (m := k) (j := 0%nat).
  - intros j u Hj ((Hc & _) & _). unfold err, next.
    specialize (Hfail j Hj). rewrite <- Hc in Hfail.
    destruct (op (calls u)) as [x|t] eqn:Hop; [discriminate|].
    now apply attempt_rejects.
  - intros j r u Hj Hu. unfold next.
    pose proof (Hfail j Hj) as Hf. destruct Hu as ((Hc & Hu1) & Hu2).
    rewrite <- Hc in Hf.
    destruct (op (calls u)) as [x|t] eqn:Hop; [discriminate|].
    apply retried_step. now repeat split.
  - intros u ((Hc & _) & _). apply attempt_return. now rewrite Hc.
  - reflexivity.
  - unfold retried, attempts_made. repeat split; lia.
  - exact Hfuel.
  - lia.
Qed.

(** A trial whose function returns and leaves the breaker HalfOpen closes
    it and clears the count. *)
Lemma trial_passes_return {A : Type} (fn : M A) w a w1 :
  state (breaker w) = OPEN ->
  clock w (ticks w) - to_number (lastFailureTime (breaker w))
    >= resetTimeout (breaker w) ->
  fn (set_breaker (set_state HALF_OPEN (breaker w)) (set_ticks (S (ticks w)) w))
  = Some (Return a, w1) ->
  state (breaker w1) = HALF_OPEN ->
  CircuitBreaker.execute fn w
  = Some (Return a,
          set_breaker (set_failures 0 (set_state CLOSED (breaker w1))) w1).
Proof.
  intros Hst Hge Hfn Hh. unfold CircuitBreaker.execute.
  rewrite (bind_return _ _ _ _ _ (open_admits_trial w Hst Hge)).
  apply try_catch_return. unfold CircuitBreaker.attempt.
  rewrite (bind_return _ _ _ _ _ Hfn).
  unfold CircuitBreaker.this, CircuitBreaker.assign, bind, gets, modify, ret.
  cbn. now rewrite Hh.
Qed.

(** X8: a call made through the mechanism on an Open breaker whose
    timeout has elapsed is the trial: the whole retry loop runs inside it,
    and when the operation returns within the retries allowed the call
    returns its value and leaves the breaker Closed with no failure
    counted. *)
Theorem recovered_trial_closes_the_circuit :
  forall (A : Type) rm (op : Operation A) context w k a fuel,
    state (breaker w) = OPEN ->
    clock w (S (ticks w)) - to_number (lastFailureTime (breaker w))
      >= resetTimeout (breaker w) ->
    (forall j, (j < k)%nat -> is_throw (op (calls w + j)%nat) = true) ->
    op (calls w + k)%nat = Return a ->
    Z.of_nat k <= maxRetries (retrier rm) ->
    (k < fuel)%nat ->
    exists w',
      RetryMechanism.execute fuel rm (invoke op) context w
      = Some (Return a, w') /\
      calls w' = (calls w + S k)%nat /\
      state (breaker w') = CLOSED /\
      failures (breaker w') = 0.
Proof.
  intros A rm op context w k a fuel Hst Hge Hfail Hok Hmax Hfuel.
  rewrite execute_begins.
  set (startTime := clock w (ticks w)).
  set (w1 := set_attempts 0 (set_ticks (S (ticks w)) w)).
  set (wg := set_breaker (set_state HALF_OPEN (breaker w1))
               (set_ticks (S (ticks w1)) w1)).
  destruct (mechanism_loop_recovers rm op context startTime wg k a fuel
              Hfail Hok Hmax Hfuel)
    as (v2 & ((Hc & Ha & Hb & Ht & Hk & Hr) & Hl) & Hloop).
  cbn in Hc, Hb.
  rewrite (try_catch_return _ _ _ _ _
             (trial_passes_return _ w1 a _ Hst Hge Hloop
                ltac:(cbn; now rewrite Hb))).
  eexists. split; [reflexivity|]. cbn. repeat split. lia.
Qed.

Lemma recovered_trial_closes_the_circuit_witness :
  let w := set_ticks 100
             (set_breaker (mkBreaker 5 60000 5 OPEN (Some 0)) sample_world) in
  exists w',
    RetryMechanism.execute 3 default_mechanism (invoke (fails_then 2)) [] w
    = Some (Return "ok", w') /\
    calls w' = 3%nat /\
    state (breaker w') = CLOSED /\
    failures (breaker w') = 0.
Proof.
  apply (recovered_trial_closes_the_circuit
           string default_mechanism (fails_then 2) []
           (set_ticks 100
              (set_breaker (mkBreaker 5 60000 5 OPEN (Some 0)) sample_world))
           2%nat "ok" 3%nat).
  - reflexivity.
  - vm_compute. discriminate.
  - intros [|[|j]] Hj; [reflexivity | reflexivity | lia].
  - reflexivity.
  - cbn. lia.
  - lia.
Defined.

(** * The dependency injection container *)

(** ** Maps *)

Lemma map_get_set_same {V : Type} key (value : V) m :
  map_get key (map_set key value m) = Some value.
Proof.
  induction m as [|[k v] m IH]; cbn.
  - now rewrite String.eqb_refl.
  - destruct (String.eqb key k) eqn:E; cbn; rewrite E; [reflexivity | exact IH].
Qed.

Lemma map_get_set_other {V : Type} key key' (value : V) m :
  key <> key' ->
  map_get key (map_set key' value m) = map_get key m.
Proof.
  intros Hne.
  assert (Hkk : String.eqb key key' = false) by now apply String.eqb_neq.
  induction m as [|[k v] m IH]; cbn.
  - now rewrite Hkk.
  - destruct (String.eqb key' k) eqn:E; cbn.
    + apply String.eqb_eq in E. subst k. now rewrite Hkk.
    + now rewrite IH.
Qed.

(** ** What a resolution changes *)

Lemma grows_refl c : grows c c.
Proof. split; [reflexivity | split; [lia | auto]]. Qed.

Lemma grows_trans c1 c2 c3 : grows c1 c2 -> grows c2 c3 -> grows c1 c3.
Proof.
  intros (Hs1 & Ha1 & Hk1) (Hs2 & Ha2 & Hk2).
  split; [congruence | split; [lia | intros k i H; auto]].
Qed.

Lemma Array_map_grows {X Y : Type} (f : X -> St DIContainerObj Y) :
  (forall x c r c', f x c = Some (r, c') -> grows c c') ->
  forall l c r c', Array_map f l c = Some (r, c') -> grows c c'.
Proof.
  intros Hf. induction l as [|x l IH]; intros c r c' H; cbn in H.
  - injection H as <- <-. apply grows_refl.
  - destruct (f x c) as [[[y|e] c1]|] eqn:Hx; [| |discriminate].
    + destruct (Array_map f l c1) as [[[ys|e] c2]|] eqn:Hl; [| |discriminate];
        injection H as <- <-;
        (eapply grows_trans; [eapply Hf, Hx | eapply IH, Hl]).
    + injection H as <- <-. eapply Hf, Hx.
Qed.

Lemma construct_grows name service deps c0 c :
  grows c0 c ->
  (singleton service = true -> map_get name (singletons c0) = None) ->
  grows c0 (snd (DIContainer.construct name service deps c)).
Proof.
  intros (Hs & Ha & Hk) Hfresh. unfold grows, DIContainer.construct. cbn.
  split; [exact Hs | split; [lia|]].
  intros k i Hki. destruct (singleton service); [|now apply Hk].
  destruct (String.eqb k name) eqn:E.
  - apply String.eqb_eq in E. subst k. rewrite Hfresh in Hki by reflexivity.
    discriminate.
  - apply String.eqb_neq in E. rewrite map_get_set_other by exact E.
    now apply Hk.
Qed.

Lemma resolve_grows :
  forall fuel name c r c',
    DIContainer.resolve fuel name c = Some (r, c') -> grows c c'.
Proof.
  induction fuel as [|fuel IH]; intros name c r c' H; [discriminate|].
  cbn [DIContainer.resolve] in H.
  destruct (map_get name (services c)) as [service|];
    [|injection H as <- <-; apply grows_refl].
  destruct (if singleton service then map_get name (singletons c) else None)
    as [i|] eqn:Hcache; [injection H as <- <-; apply grows_refl|].
  destruct (Array_map (DIContainer.resolve fuel) (dependencies service) c)
    as [[[deps|e] c1]|] eqn:Hdeps; [| |discriminate].
  - pose proof (Array_map_grows _ (fun x => IH x) _ _ _ _ Hdeps) as Hg.
    pose proof (construct_grows name service deps c c1 Hg) as Hc.
    destruct (DIContainer.construct name service deps c1) as [r1 c2].
    injection H as <- <-. apply Hc.
    intros Hsing. now rewrite Hsing in Hcache.
  - injection H as <- <-.
    exact (Array_map_grows _ (fun x => IH x) _ _ _ _ Hdeps).
Qed.

(** A singleton that was resolved is in the cache. *)
Lemma resolved_singleton_is_cached fuel name c i c' service :
  DIContainer.resolve fuel name c = Some (Return i, c') ->
  map_get name (services c) = Some service ->
  singleton service = true ->
  map_get name (singletons c') = Some i.
Proof.
  intros H Hsvc Hsing. destruct fuel as [|fuel]; [discriminate|].
  cbn [DIContainer.resolve] in H. rewrite Hsvc, Hsing in H.
  destruct (map_get name (singletons c)) as [j|] eqn:Hcache.
  - now injection H as <- <-.
  - destruct (Array_map (DIContainer.resolve fuel) (dependencies service) c)
      as [[[deps|e] c1]|]; [| discriminate | discriminate].
    unfold DIContainer.construct in H. rewrite Hsing in H.
    injection H as <- <-. cbn. apply map_get_set_same.
Qed.

(** X9: a singleton is constructed once.  After a resolution of a
    singleton service returned an instance, and whatever was resolved
    since, resolving it again returns that very instance, makes no object
    and leaves the container as it is. *)
Theorem singleton_is_constructed_once :
  forall fuel1 fuel2 fuel3 name other c i c1 r c2 service,
    map_get name (services c) = Some service ->
    singleton service = true ->
    DIContainer.resolve fuel1 name c = Some (Return i, c1) ->
    DIContainer.resolve fuel2 other c1 = Some (r, c2) ->
    DIContainer.resolve (S fuel3) name c2 = Some (Return i, c2).
Proof.
  intros fuel1 fuel2 fuel3 name other c i c1 r c2 service Hsvc Hsing H1 H2.
  pose proof (resolved_singleton_is_cached _ _ _ _ _ _ H1 Hsvc Hsing) as Hc1.
  destruct (resolve_grows _ _ _ _ _ H1) as (Hs1 & _ & _).
  destruct (resolve_grows _ _ _ _ _ H2) as (Hs2 & _ & Hk2).
  cbn [DIContainer.resolve].
  rewrite Hs2, Hs1, Hsvc, Hsing, (Hk2 _ _ Hc1). reflexivity.
Qed.

Lemma singleton_is_constructed_once_witness :
  exists i c1 r c2,
    DIContainer.resolve 1 "emailService" example_container = Some (Return i, c1) /\
    DIContainer.resolve 2 "orderService" c1 = Some (r, c2) /\
    DIContainer.resolve 1 "emailService" c2 = Some (Return i, c2).
Proof.
  do 4 eexists. split; [reflexivity|]. split; [reflexivity|].
  eapply (singleton_is_constructed_once 1 2 0 "emailService" "orderService"
            example_container);
    reflexivity.
Defined.

(** A resolution of a service that is not a singleton makes an object of
    its class that did not exist before. *)
Lemma resolved_transient_is_new fuel name c i c' service :
  DIContainer.resolve fuel name c = Some (Return i, c') ->
  map_get name (services c) = Some service ->
  singleton service = false ->
  (allocated c <= oid i)%nat /\ (oid i < allocated c')%nat /\
  class_of i = Implementation service.
Proof.
  intros H Hsvc Hsing. destruct fuel as [|fuel]; [discriminate|].
  cbn [DIContainer.resolve] in H. rewrite Hsvc, Hsing in H.
  destruct (Array_map (DIContainer.resolve fuel) (dependencies service) c)
    as [[[deps|e] c1]|] eqn:Hdeps; [| discriminate | discriminate].
  destruct (Array_map_grows _ (resolve_grows fuel) _ _ _ _ Hdeps)
    as (_ & Ha & _).
  unfold DIContainer.construct in H. injection H as <- <-. cbn.
  repeat split; lia.
Qed.

(** X10: every resolution of a service registered with [register] makes
    a new object: two instances of it have different identities and the
    class of the registration, whatever was resolved in between. *)
Theorem transient_instances_are_distinct :
  forall fuel1 fuel2 fuel3 name other c i1 c1 r c2 i2 c3 service,
    map_get name (services c) = Some service ->
    singleton service = false ->
    DIContainer.resolve fuel1 name c = Some (Return i1, c1) ->
    DIContainer.resolve fuel2 other c1 = Some (r, c2) ->
    DIContainer.resolve fuel3 name c2 = Some (Return i2, c3) ->
    (oid i1 < oid i2)%nat /\
    class_of i1 = Implementation service /\
    class_of i2 = Implementation service.
Proof.
  intros fuel1 fuel2 fuel3 name other c i1 c1 r c2 i2 c3 service
    Hsvc Hsing H1 H2 H3.
  destruct (resolve_grows _ _ _ _ _ H1) as (Hs1 & _ & _).
  destruct (resolve_grows _ _ _ _ _ H2) as (Hs2 & Ha2 & _).
  destruct (resolved_transient_is_new _ _ _ _ _ _ H1 Hsvc Hsing)
    as (_ & Hlt & Hc1).
  destruct (resolved_transient_is_new _ _ _ _ _ service H3) as (Hle & _ & Hc2);
    [congruence | exact Hsing |].
  repeat split; [lia | exact Hc1 | exact Hc2].
Qed.

Lemma transient_instances_are_distinct_witness :
  exists i1 c1 r c2 i2 c3,
    DIContainer.resolve 2 "orderService" example_container
    = Some (Return i1, c1) /\
    DIContainer.resolve 1 "emailService" c1 = Some (r, c2) /\
    DIContainer.resolve 2 "orderService" c2 = Some (Return i2, c3) /\
    (oid i1 < oid i2)%nat /\
    class_of i1 = "OrderService" /\
    class_of i2 = "OrderService".
Proof.
  do 6 eexists. split; [reflexivity|]. split; [reflexivity|].
  split; [reflexivity|].
  eapply (transient_instances_are_distinct 2 1 2 "orderService" "emailService"
           example_container _ _ _ _ _ _
           (mkService "OrderService" ["emailService"; "paymentService"] false));
    reflexivity.
Defined.

(** ** Resolution succeeds on an acyclic graph *)

Lemma Array_map_succeeds {X Y : Type} (f : X -> St DIContainerObj Y) svcs :
  forall l,
    (forall x c, In x l -> services c = svcs ->
       exists y c', f x c = Some (Return y, c') /\ services c' = svcs) ->
    forall c, services c = svcs ->
      exists ys c', Array_map f l c = Some (Return ys, c') /\
                    services c' = svcs /\
                    List.length ys = List.length l.
Proof.
  induction l as [|x l IH]; intros Hf c Hc; cbn.
  - now exists [], c.
  - destruct (Hf x c (or_introl eq_refl) Hc) as (y & c1 & Hx & Hc1).
    rewrite Hx.
    destruct (IH (fun x' c' Hin => Hf x' c' (or_intror Hin)) c1 Hc1)
      as (ys & c2 & Hl & Hc2 & Hlen).
    rewrite Hl. exists (y :: ys), c2. cbn. now rewrite Hlen.
Qed.

(** X11: when no registered service depends, directly or through others,
    on itself or on an unregistered name, every registered service
    resolves: the resolution returns an instance once the fuel exceeds the
    rank of the service, and only adds to the container. *)
Theorem acyclic_graph_resolves :
  forall rank fuel name c,
    acyclic (services c) rank ->
    map_get name (services c) <> None ->
    (rank name < fuel)%nat ->
    exists i c',
      DIContainer.resolve fuel name c = Some (Return i, c') /\ grows c c'.
Proof.
  intros rank.
  induction fuel as [|fuel IH]; intros name c Hacyc Hreg Hfuel; [lia|].
  assert (Hgoal : exists i c',
             DIContainer.resolve (S fuel) name c = Some (Return i, c')).
  { cbn [DIContainer.resolve].
    destruct (map_get name (services c)) as [service|] eqn:Hsvc;
      [|now elim Hreg].
    destruct (if singleton service then map_get name (singletons c) else None)
      as [i|]; [now exists i, c|].
    destruct (Array_map_succeeds (DIContainer.resolve fuel) (services c)
                (dependencies service)) with (c := c)
      as (deps & c1 & Hdeps & _); [|reflexivity|].
    - intros d c0 Hin Hc0.
      pose proof (Hacyc name service Hsvc) as Hall.
      rewrite Forall_forall in Hall. destruct (Hall d Hin) as (Hrank & Hd).
      destruct (IH d c0) as (i & c' & Hrun & Hs & _);
        [now rewrite Hc0 | now rewrite Hc0 | lia |].
      exists i, c'. split; [exact Hrun | congruence].
    - rewrite Hdeps. unfold DIContainer.construct. now eexists _, _. }
  destruct Hgoal as (i & c' & Hrun).
  exists i, c'. split; [exact Hrun | exact (resolve_grows _ _ _ _ _ Hrun)].
Qed.

Lemma acyclic_graph_resolves_witness :
  exists i c',
    DIContainer.resolve 2 "orderService" example_container
    = Some (Return i, c') /\
    grows example_container c'.
Proof.
  apply (acyclic_graph_resolves example_rank 2 "orderService"
           example_container).
  - intros name s Hget. unfold example_container in Hget. cbn in Hget.
    destruct (String.eqb name "emailService");
      [injection Hget as <-; constructor|].
    destruct (String.eqb name "paymentService");
      [injection Hget as <-; constructor|].
    destruct (String.eqb name "orderService") eqn:E; [|discriminate].
    injection Hget as <-. apply String.eqb_eq in E. subst name.
    repeat constructor; discriminate.
  - discriminate.
  - apply Nat.lt_succ_diag_r.
Defined.

(** X12: a service with a dependency that is not registered is never
    constructed: unless it is a cached singleton, no amount of fuel makes
    its resolution return. *)
Theorem missing_dependency_is_never_constructed :
  forall fuel name c service d,
    map_get name (services c) = Some service ->
    (singleton service = true -> map_get name (singletons c) = None) ->
    In d (dependencies service) ->
    map_get d (services c) = None ->
    forall i c', DIContainer.resolve fuel name c <> Some (Return i, c').
Proof.
  intros fuel name c service d Hsvc Hcache Hin Hd i c' H.
  destruct fuel as [|fuel]; [discriminate|].
  cbn [DIContainer.resolve] in H. rewrite Hsvc in H.
  assert (Huncached : (if singleton service
                       then map_get name (singletons c) else None) = None)
    by (destruct (singleton service); [now apply Hcache | reflexivity]).
  rewrite Huncached in H.
  assert (Hnever : forall l c0 ys c1,
             In d l -> services c0 = services c ->
             Array_map (DIContainer.resolve fuel) l c0
             <> Some (Return ys, c1)).
  { induction l as [|x l IHl]; intros c0 ys c1 Hl Hc0 Hrun; [now elim Hl|].
    cbn in Hrun.
    destruct (DIContainer.resolve fuel x c0) as [[[y|e] c2]|] eqn:Hx;
      [| discriminate | discriminate].
    destruct Hl as [->|Hl].
    - destruct fuel as [|fuel']; [discriminate|].
      cbn [DIContainer.resolve] in Hx. rewrite Hc0, Hd in Hx. discriminate.
    - destruct (resolve_grows _ _ _ _ _ Hx) as (Hs & _ & _).
      destruct (Array_map (DIContainer.resolve fuel) l c2)
        as [[[zs|e] c3]|] eqn:Hrest; [| discriminate | discriminate].
      apply (IHl c2 zs c3 Hl); [congruence | exact Hrest]. }
  destruct (Array_map (DIContainer.resolve fuel) (dependencies service) c)
    as [[[deps|e] c1]|] eqn:Hdeps; [| discriminate | discriminate].
  now apply (Hnever _ _ _ _ Hin eq_refl Hdeps).
Qed.

Lemma missing_dependency_is_never_constructed_witness :
  match DIContainer.resolve 5 "report"
          (DIContainer.register "report" "Report"
             (Some ["emailService"; "pdf"]) example_container)
  with
  | Some (Return _, _) => False
  | _ => True
  end.
Proof.
  destruct (DIContainer.resolve 5 "report"
              (DIContainer.register "report" "Report"
                 (Some ["emailService"; "pdf"]) example_container))
    as [[[i|e] c']|] eqn:H; [|exact I|exact I].
  apply (missing_dependency_is_never_constructed 5 "report"
           (DIContainer.register "report" "Report"
              (Some ["emailService"; "pdf"]) example_container)
           (mkService "Report" ["emailService"; "pdf"] false) "pdf"
           eq_refl ltac:(discriminate) (or_intror (or_introl eq_refl)) eq_refl
           i c' H).
Defined.

(** ** Singleton dependencies are shared *)

Lemma deps_are_cached fuel :
  forall l c ys c',
    (forall d, In d l ->
       exists sd, map_get d (services c) = Some sd /\ singleton sd = true) ->
    Array_map (DIContainer.resolve fuel) l c = Some (Return ys, c') ->
    Forall2 (fun d i => map_get d (singletons c') = Some i) l ys.
Proof.
  induction l as [|x l IH]; intros c ys c' Hsing H; cbn in H.
  - injection H as <- <-. constructor.
  - destruct (DIContainer.resolve fuel x c) as [[[y|e] c1]|] eqn:Hx;
      [| discriminate | discriminate].
    destruct (Array_map (DIContainer.resolve fuel) l c1)
      as [[[zs|e] c2]|] eqn:Hl; [| discriminate | discriminate].
    injection H as <- <-.
    destruct (Hsing x (or_introl eq_refl)) as (sd & Hsd & Hs).
    destruct (resolve_grows _ _ _ _ _ Hx) as (Hs1 & _ & _).
    destruct (Array_map_grows _ (resolve_grows fuel) _ _ _ _ Hl)
      as (_ & _ & Hk).
    constructor.
    + apply Hk. exact (resolved_singleton_is_cached _ _ _ _ _ _ Hx Hsd Hs).
    + apply (IH c1); [|exact Hl].
      intros d Hd. rewrite Hs1. apply Hsing. now right.
Qed.

Lemma cached_deps_resolve fuel c :
  forall l ys,
    (forall d, In d l ->
       exists sd, map_get d (services c) = Some sd /\ singleton sd = true) ->
    Forall2 (fun d i => map_get d (singletons c) = Some i) l ys ->
    forall r c',
      Array_map (DIContainer.resolve fuel) l c = Some (r, c') ->
      r = Return ys /\ c' = c.
Proof.
  intros l ys Hsing Hall. induction Hall as [|d i l ys Hd Hall IH];
    intros r c' H; cbn in H.
  - now injection H as <- <-.
  - destruct (Hsing d (or_introl eq_refl)) as (sd & Hsd & Hs).
    destruct fuel as [|fuel]; [discriminate|].
    assert (Hhead : DIContainer.resolve (S fuel) d c = Some (Return i, c))
      by (cbn [DIContainer.resolve]; now rewrite Hsd, Hs, Hd).
    rewrite Hhead in H.
    destruct (Array_map (DIContainer.resolve (S fuel)) l c)
      as [[r1 c1]|] eqn:Hl; [|discriminate].
    destruct (IH (fun d' Hin => Hsing d' (or_intror Hin)) r1 c1 eq_refl)
      as (-> & ->).
    now injection H as <- <-.
Qed.

(** A singleton in the cache is what [resolve] returns, and the container
    is left as it is. *)
Lemma cached_singleton_resolves fuel d c sd i :
  map_get d (services c) = Some sd ->
  singleton sd = true ->
  map_get d (singletons c) = Some i ->
  DIContainer.resolve (S fuel) d c = Some (Return i, c).
Proof.
  intros Hsd Hs Hd. cbn [DIContainer.resolve]. now rewrite Hsd, Hs, Hd.
Qed.

Lemma cached_deps_are_resolved c :
  forall l ys,
    (forall d, In d l ->
       exists sd, map_get d (services c) = Some sd /\ singleton sd = true) ->
    Forall2 (fun d i => map_get d (singletons c) = Some i) l ys ->
    Forall2 (fun d i =>
               forall fuel,
                 DIContainer.resolve (S fuel) d c = Some (Return i, c))
            l ys.
Proof.
  intros l ys Hall Hcached.
  induction Hcached as [|d i l ys Hd Hrest IH]; constructor.
  - intros fuel. destruct (Hall d (or_introl eq_refl)) as (sd & Hsd & Hs).
    now apply cached_singleton_resolves with (sd := sd).
  - apply IH. intros d' Hd'. apply Hall. now right.
Qed.

(** X13: two instances of a service registered with [register] whose
    dependencies are all singletons are different objects of the
    registered class, and the constructor of each received, in the order
    of the dependency list, the instances that [resolve] returns for the
    dependency names: the cached singletons, the same for both. *)
Theorem instances_share_their_singleton_dependencies :
  forall fuel1 fuel2 name c i1 c1 i2 c2 service,
    map_get name (services c) = Some service ->
    singleton service = false ->
    (forall d, In d (dependencies service) ->
       exists sd, map_get d (services c) = Some sd /\ singleton sd = true) ->
    DIContainer.resolve fuel1 name c = Some (Return i1, c1) ->
    DIContainer.resolve fuel2 name c1 = Some (Return i2, c2) ->
    Forall2 (fun d i =>
               forall fuel,
                 DIContainer.resolve (S fuel) d c2 = Some (Return i, c2))
            (dependencies service) (args_of i1) /\
    args_of i2 = args_of i1 /\
    oid i1 <> oid i2 /\
    class_of i1 = Implementation service /\
    class_of i2 = Implementation service.
Proof.
  intros fuel1 fuel2 name c i1 c1 i2 c2 service Hsvc Hsing Hdeps H1 H2.
  destruct (resolve_grows _ _ _ _ _ H1) as (Hs1 & _ & _).
  destruct (resolve_grows _ _ _ _ _ H2) as (Hs2 & _ & _).
  assert (Hne : oid i1 <> oid i2).
  { destruct (resolved_transient_is_new _ _ _ _ _ _ H1 Hsvc Hsing)
      as (_ & Hlt & _).
    destruct (resolved_transient_is_new _ _ _ _ _ service H2) as (Hle & _ & _);
      [congruence | exact Hsing | lia]. }
  destruct fuel1 as [|fuel1]; [discriminate|].
  destruct fuel2 as [|fuel2]; [discriminate|].
  cbn [DIContainer.resolve] in H1, H2.
  rewrite Hs1 in H2. rewrite Hsvc, Hsing in H1, H2.
  destruct (Array_map (DIContainer.resolve fuel1) (dependencies service) c)
    as [[[ys1|e1] c1']|] eqn:Hrun1; [| discriminate | discriminate].
  pose proof (deps_are_cached _ _ _ _ _ Hdeps Hrun1) as Hcached.
  destruct (Array_map_grows _ (resolve_grows fuel1) _ _ _ _ Hrun1)
    as (Hs1' & _ & _).
  unfold DIContainer.construct in H1. rewrite Hsing in H1.
  injection H1 as <- <-.
  destruct (Array_map (DIContainer.resolve fuel2) (dependencies service) _)
    as [[r2 c2']|] eqn:Hrun2; [|discriminate].
  pose proof (fun Ha Hb =>
                cached_deps_resolve fuel2 _ (dependencies service) ys1 Ha Hb
                  r2 c2' Hrun2) as Hsame.
  destruct Hsame as (-> & ->);
    [ intros d Hd; cbn; rewrite Hs1'; now apply Hdeps
    | exact Hcached
    | ].
  unfold DIContainer.construct in H2. rewrite Hsing in H2.
  injection H2 as <- <-. cbn in Hs1, Hs2.
  split; [|cbn; now repeat split].
  apply cached_deps_are_resolved; [|exact Hcached].
  intros d Hd. cbn. rewrite Hs1'. now apply Hdeps.
Qed.

Lemma instances_share_their_singleton_dependencies_witness :
  exists i1 c1 i2 c2,
    DIContainer.resolve 2 "orderService" example_container
    = Some (Return i1, c1) /\
    DIContainer.resolve 2 "orderService" c1 = Some (Return i2, c2) /\
    Forall2 (fun d i =>
               forall fuel,
                 DIContainer.resolve (S fuel) d c2 = Some (Return i, c2))
            ["emailService"; "paymentService"] (args_of i1) /\
    args_of i2 = args_of i1 /\
    oid i1 <> oid i2 /\
    class_of i1 = "OrderService" /\
    class_of i2 = "OrderService".
Proof.
  do 4 eexists. split; [reflexivity|]. split; [reflexivity|].
  eapply (instances_share_their_singleton_dependencies 2 2 "orderService"
            example_container _ _ _ _
            (mkService "OrderService" ["emailService"; "paymentService"] false)).
  - reflexivity.
  - reflexivity.
  - intros d [<-|[<-|[]]]; eexists; split; reflexivity.
  - reflexivity.
  - reflexivity.
Defined.

(** X14: registering a singleton again under a name whose instance is
    cached does not replace the instance: [resolve] keeps returning the
    object made for the earlier registration. *)
Theorem cached_singleton_survives_a_new_registration :
  forall fuel name Impl deps c i,
    map_get name (singletons c) = Some i ->
    DIContainer.resolve (S fuel) name
      (DIContainer.registerSingleton name Impl deps c)
    = Some (Return i, DIContainer.registerSingleton name Impl deps c).
Proof.
  intros fuel name Impl deps c i Hc. cbn [DIContainer.resolve].
  unfold DIContainer.registerSingleton at 1. cbn [services].
  rewrite map_get_set_same. cbn. now rewrite Hc.
Qed.

Lemma cached_singleton_survives_a_new_registration_witness :
  let c := {| services := services example_container;
              singletons := [("emailService", mkInstance 0 "EmailService" [])];
              allocated := 1 |} in
  DIContainer.resolve 1 "emailService"
    (DIContainer.registerSingleton "emailService" "SmtpService" None c)
  = Some (Return (mkInstance 0 "EmailService" []),
          DIContainer.registerSingleton "emailService" "SmtpService" None c).
Proof.
  exact (cached_singleton_survives_a_new_registration 0 "emailService"
           "SmtpService" None
           {| services := services example_container;
              singletons := [("emailService", mkInstance 0 "EmailService" [])];
              allocated := 1 |}
           (mkInstance 0 "EmailService" []) eq_refl).
Defined.

(** * The plugin manager *)

Lemma map_set_absent {V : Type} key (value : V) m :
  map_get key m = None -> map_set key value m = m ++ [(key, value)].
Proof.
  induction m as [|[k v] m IH]; cbn; [reflexivity|].
  destruct (String.eqb key k); [discriminate|].
  intros H. now rewrite IH.
Qed.

Lemma map_get_delete_same {V : Type} key (m : JsMap V) :
  map_get key (map_delete key m) = None.
Proof.
  unfold map_delete. induction m as [|[k v] m IH]; cbn; [reflexivity|].
  destruct (String.eqb key k) eqn:E; cbn; [exact IH|].
  now rewrite E.
Qed.

Lemma map_get_delete_other {V : Type} key key' (m : JsMap V) :
  key <> key' -> map_get key (map_delete key' m) = map_get key m.
Proof.
  intros Hne. unfold map_delete.
  induction m as [|[k v] m IH]; cbn; [reflexivity|].
  destruct (String.eqb key' k) eqn:E; cbn.
  - apply String.eqb_eq in E. subst k.
    apply String.eqb_neq in Hne. now rewrite Hne.
  - now rewrite IH.
Qed.

Lemma map_delete_set_absent {V : Type} key (value : V) m :
  map_get key m = None -> map_delete key (map_set key value m) = m.
Proof.
  intros H. rewrite (map_set_absent key value m H).
  unfold map_delete. rewrite filter_app. cbn. rewrite String.eqb_refl. cbn.
  rewrite app_nil_r.
  induction m as [|[k v] m IH]; cbn in *; [reflexivity|].
  destruct (String.eqb key k); [discriminate|]. cbn. now rewrite IH.
Qed.

(** ** Calls that fail *)

(** X15: [registerPlugin] fails exactly when the plugin lacks a name or a
    version, when a plugin of that name is registered, or when its
    [initialize] throws, and then leaves the plugins, the hooks and the
    console as they were.  [unregisterPlugin] fails exactly when no plugin
    of that name is registered, and then changes nothing, or when the
    [shutdown] of the plugin rejects with [null] or [undefined]: reading
    the message in the [catch] block then throws a [TypeError] after the
    hooks of the plugin were removed and before the plugin is deleted, so
    the plugin stays registered without its hooks. *)
Theorem plugin_calls_fail_exactly_when :
  forall plugin pluginName this,
    let name := template_of (plugin_name plugin) in
    ((exists e, fst (PluginManager.registerPlugin plugin this) = Throw e) <->
     (falsy (plugin_name plugin) = true \/
      falsy (version plugin) = true \/
      PluginManager.getPlugin name this <> None \/
      exists err, initialize plugin = Some (Throw err))) /\
    (forall e, fst (PluginManager.registerPlugin plugin this) = Throw e ->
               snd (PluginManager.registerPlugin plugin this) = this) /\
    ((exists e, fst (PluginManager.unregisterPlugin pluginName this) = Throw e)
     <-> (PluginManager.getPlugin pluginName this = None \/
          exists registered v,
            PluginManager.getPlugin pluginName this = Some registered /\
            shutdown registered = Some (Throw (thrown_nullish v)))) /\
    (PluginManager.getPlugin pluginName this = None ->
     PluginManager.unregisterPlugin pluginName this
     = (Throw (Error ("Plugin " ++ pluginName ++ " is not registered")%string),
        this)) /\
    (forall registered v,
        PluginManager.getPlugin pluginName this = Some registered ->
        shutdown registered = Some (Throw (thrown_nullish v)) ->
        PluginManager.unregisterPlugin pluginName this
        = (Throw (cannot_read v "message"),
           {| plugins := plugins this;
              hook_sets :=
                PluginManager.remove_hooks
                  (map snd (PluginManager.entries registered))
                  (hook_sets this);
              console_out := console_out this |})).
Proof.
  intros plugin pluginName this name.
  unfold PluginManager.registerPlugin, PluginManager.unregisterPlugin,
    PluginManager.getPlugin, map_has. fold name.
  split; [|split; [|split; [|split]]].
  - destruct (falsy (plugin_name plugin)) eqn:Hn; cbn.
    { split; [intros _; now left | intros _; now eexists]. }
    destruct (falsy (version plugin)) eqn:Hv; cbn.
    { split; [intros _; right; now left | intros _; now eexists]. }
    destruct (map_get name (plugins this)) as [p|] eqn:Hp; cbn.
    { split; [intros _; right; right; left; discriminate
             | intros _; now eexists]. }
    destruct (initialize plugin) as [[[]|err]|] eqn:Hi; cbn.
    + split; [intros (e & He); discriminate|].
      intros [H|[H|[H|(err & H)]]]; try discriminate. now elim H.
    + split; [intros _; right; right; right; now exists err|].
      intros _. destruct (message_of err); now eexists.
    + split; [intros (e & He); discriminate|].
      intros [H|[H|[H|(err & H)]]]; try discriminate. now elim H.
  - intros e.
    destruct (falsy (plugin_name plugin)); cbn; [reflexivity|].
    destruct (falsy (version plugin)); cbn; [reflexivity|].
    destruct (map_get name (plugins this)); cbn; [reflexivity|].
    destruct (initialize plugin) as [[[]|err]|]; cbn;
      [discriminate | now destruct (message_of err) | discriminate].
  - destruct (map_get pluginName (plugins this)) as [registered|]; cbn.
    + destruct (shutdown registered) as [[[]|[err|v]]|] eqn:Hs; cbn.
      * split; [intros (e & He); discriminate|].
        intros [H|(r & v & H & H')]; [discriminate|].
        injection H as <-. congruence.
      * split; [intros (e & He); discriminate|].
        intros [H|(r & v & H & H')]; [discriminate|].
        injection H as <-. congruence.
      * split; [intros _; right; now exists registered, v
               | intros _; now eexists].
      * split; [intros (e & He); discriminate|].
        intros [H|(r & v & H & H')]; [discriminate|].
        injection H as <-. congruence.
    + split; [intros _; now left | intros _; now eexists].
  - intros H. now rewrite H.
  - intros registered v H Hs. now rewrite H, Hs.
Qed.

Lemma plugin_calls_fail_exactly_when_witness :
  PluginManager.unregisterPlugin "muted" crowded_manager
  = (Throw (cannot_read null_value "message"),
     {| plugins := plugins crowded_manager;
        hook_sets := hook_sets example_manager;
        console_out := console_out crowded_manager |}) /\
  PluginManager.unregisterPlugin "absent" crowded_manager
  = (Throw (Error "Plugin absent is not registered"), crowded_manager).
Proof.
  destruct (plugin_calls_fail_exactly_when muted_plugin "muted"
              crowded_manager) as (_ & _ & _ & _ & Hnull).
  destruct (plugin_calls_fail_exactly_when muted_plugin "absent"
              crowded_manager) as (_ & _ & _ & Habsent & _).
  split.
  - exact (Hnull muted_plugin null_value eq_refl eq_refl).
  - exact (Habsent eq_refl).
Defined.

(** ** Registering *)

(** X16: a plugin with a name and a version whose name is free and whose
    [initialize], if any, returns is registered: [getPlugin] returns it,
    the other names are as before, [listPlugins] lists it last, and a
    second registration under this name is refused. *)
Theorem registered_plugin_is_found_and_listed :
  forall plugin this n v,
    plugin_name plugin = Some n ->
    version plugin = Some v ->
    n <> "" -> v <> "" ->
    PluginManager.getPlugin n this = None ->
    (forall err, initialize plugin <> Some (Throw err)) ->
    exists this',
      PluginManager.registerPlugin plugin this = (Return tt, this') /\
      PluginManager.getPlugin n this' = Some plugin /\
      (forall other, other <> n ->
         PluginManager.getPlugin other this' = PluginManager.getPlugin other this) /\
      PluginManager.listPlugins this'
      = PluginManager.listPlugins this ++ [(n, Some v)] /\
      PluginManager.registerPlugin plugin this'
      = (Throw (Error ("Plugin " ++ n ++ " is already registered")%string),
         this').
Proof.
  intros plugin this n v Hn Hv Hne Hve Hfree Hinit.
  assert (Hfn : falsy (plugin_name plugin) = false)
    by (rewrite Hn; destruct n; [now elim Hne | reflexivity]).
  assert (Hfv : falsy (version plugin) = false)
    by (rewrite Hv; destruct v; [now elim Hve | reflexivity]).
  unfold PluginManager.getPlugin in *.
  eexists. split.
  - unfold PluginManager.registerPlugin, map_has.
    rewrite Hfn, Hfv, Hn. cbn. rewrite Hfree.
    destruct (initialize plugin) as [[[]|err]|] eqn:Hi;
      [reflexivity | now elim (Hinit err) | reflexivity].
  - cbn. split; [apply map_get_set_same|].
    split; [intros other Ho; now apply map_get_set_other|].
    split.
    + unfold PluginManager.listPlugins. cbn.
      rewrite (map_set_absent _ _ _ Hfree), map_app. cbn. now rewrite Hv.
    + unfold PluginManager.registerPlugin, map_has.
      rewrite Hfn, Hfv, Hn. cbn. now rewrite map_get_set_same.
Qed.

Lemma registered_plugin_is_found_and_listed_witness :
  exists this',
    PluginManager.registerPlugin logger_plugin PluginManager.new
    = (Return tt, this') /\
    PluginManager.getPlugin "console-logger" this' = Some logger_plugin /\
    PluginManager.listPlugins this' = [("console-logger", Some "1.0.0")] /\
    PluginManager.registerPlugin logger_plugin this'
    = (Throw (Error "Plugin console-logger is already registered"), this').
Proof.
  destruct (registered_plugin_is_found_and_listed logger_plugin
              PluginManager.new "console-logger" "1.0.0")
    as (this' & H1 & H2 & _ & H4 & H5);
    try reflexivity; try discriminate.
  exists this'. now repeat split.
Defined.

(** ** Running hooks *)

Lemma run_hooks_results hookName args :
  forall hs results out,
    Forall (answers args) hs ->
    fst (PluginManager.run_hooks hookName args hs results out)
    = Return (results ++ map (hook_result args) hs).
Proof.
  induction hs as [|h hs IH]; intros results out Hall; cbn.
  - now rewrite app_nil_r.
  - apply Forall_cons_iff in Hall. destruct Hall as (Hh & Hall).
    unfold answers in Hh. unfold hook_result at 1.
    destruct (hook_fn h args) as [v|[e|n]]; cbn.
    + rewrite IH by exact Hall. now rewrite <- app_assoc.
    + rewrite IH by exact Hall. now rewrite <- app_assoc.
    + now elim (Hh n).
Qed.

Lemma run_hooks_rejects hookName args h after v :
  hook_fn h args = Throw (thrown_nullish v) ->
  forall before results out,
    Forall (answers args) before ->
    fst (PluginManager.run_hooks hookName args (before ++ h :: after)
           results out)
    = Throw (cannot_read v "message").
Proof.
  intros Hh. induction before as [|b before IH]; intros results out Hall; cbn.
  - now rewrite Hh.
  - apply Forall_cons_iff in Hall. destruct Hall as (Hb & Hall).
    unfold answers in Hb.
    destruct (hook_fn b args) as [x|[e|n]]; cbn;
      [now apply IH | now apply IH | now elim (Hb n)].
Qed.

(** X17: [executeHook] calls the functions registered under the hook
    name in the order of registration and leaves the plugins and the
    hooks as they were.  When none of them rejects with [null] or
    [undefined] it returns one result for each: what the function
    returned, or [null] when it threw an error object; for a name without
    hooks that is the empty array.  At the first function that rejects
    with [null] or [undefined] it throws the [TypeError] of reading the
    message in the [catch] block, and the later functions are not
    called. *)
Theorem executeHook_collects_a_result_per_hook :
  forall hookName args this,
    let hs := match map_get hookName (hook_sets this) with
              | Some hs => hs
              | None => []
              end in
    (Forall (answers args) hs ->
     exists this',
       PluginManager.executeHook hookName args this
       = (Return (map (hook_result args) hs), this') /\
       plugins this' = plugins this /\
       hook_sets this' = hook_sets this) /\
    (forall before h after v,
        hs = before ++ h :: after ->
        Forall (answers args) before ->
        hook_fn h args = Throw (thrown_nullish v) ->
        exists this',
          PluginManager.executeHook hookName args this
          = (Throw (cannot_read v "message"), this') /\
          plugins this' = plugins this /\
          hook_sets this' = hook_sets this).
Proof.
  intros hookName args this hs. unfold PluginManager.executeHook. subst hs.
  destruct (map_get hookName (hook_sets this)) as [hs|].
  - split.
    + intros Hall.
      pose proof (run_hooks_results hookName args hs [] (console_out this)
                    Hall) as Hr.
      destruct (PluginManager.run_hooks hookName args hs [] (console_out this))
        as [results out].
      cbn in Hr. subst results. now eexists.
    + intros before h after v -> Hall Hh.
      pose proof (run_hooks_rejects hookName args h after v Hh before []
                    (console_out this) Hall) as Hr.
      destruct (PluginManager.run_hooks hookName args (before ++ h :: after)
                  [] (console_out this)) as [results out].
      cbn in Hr. subst results. now eexists.
  - split; [intros _; now exists this|].
    intros before h after v H. now destruct before.
Qed.

Lemma executeHook_collects_a_result_per_hook_witness :
  (exists this',
      PluginManager.executeHook "onLog" [js_string "ERROR"] example_manager
      = (Return [js_undefined; js_null], this') /\
      plugins this' = plugins example_manager /\
      hook_sets this' = hook_sets example_manager) /\
  (exists this',
      PluginManager.executeHook "onLog" [js_string "ERROR"] crowded_manager
      = (Throw (cannot_read null_value "message"), this') /\
      plugins this' = plugins crowded_manager /\
      hook_sets this' = hook_sets crowded_manager).
Proof.
  split.
  - apply (proj1 (executeHook_collects_a_result_per_hook
                    "onLog" [js_string "ERROR"] example_manager)).
    repeat constructor; intros v; discriminate.
  - apply (proj2 (executeHook_collects_a_result_per_hook
                    "onLog" [js_string "ERROR"] crowded_manager)
             [logger_hook; failing_hook] muted_hook [] null_value).
    + reflexivity.
    + repeat constructor; intros v; discriminate.
    + reflexivity.
Defined.

(** ** Unregistering *)

Lemma filter_twice {X : Type} (p q : X -> bool) l :
  filter p (filter q l) = filter (fun x => q x && p x) l.
Proof.
  induction l as [|x l IH]; cbn; [reflexivity|].
  destruct (q x); cbn; [destruct (p x); now rewrite IH | exact IH].
Qed.

(** Deleting the functions of a plugin from a set keeps the functions
    that are none of them. *)
Lemma deleted_from_set fns :
  forall s,
    fold_left (fun s hookFn => set_delete hookFn s) fns s
    = filter (kept fns) s.
Proof.
  induction fns as [|fn fns IH]; intros s; cbn.
  - induction s as [|h s IHs]; cbn; [reflexivity | now rewrite <- IHs].
  - rewrite IH. unfold set_delete. rewrite filter_twice. reflexivity.
Qed.

Lemma remove_hooks_leaves fns :
  forall sets hookName s,
    map_get hookName (PluginManager.remove_hooks fns sets) = Some s ->
    s <> [] /\ Forall (fun h => kept fns h = true) s.
Proof.
  induction sets as [|[k s0] sets IH]; intros hookName s H; cbn in H;
    [discriminate|].
  rewrite deleted_from_set in H.
  destruct (filter (kept fns) s0) as [|h s1] eqn:Hf; [now apply (IH hookName)|].
  cbn in H. destruct (String.eqb hookName k); [|now apply (IH hookName)].
  injection H as <-. split; [discriminate|].
  rewrite <- Hf. apply Forall_forall. intros x Hx.
  now apply filter_In in Hx.
Qed.

Lemma kept_excludes fns h fn :
  kept fns h = true -> In fn fns -> hook_id h <> hook_id fn.
Proof.
  unfold kept. rewrite forallb_forall. intros Hall Hin Heq.
  specialize (Hall fn Hin). unfold same_function in Hall.
  rewrite Heq, Nat.eqb_refl in Hall. discriminate.
Qed.

(** What [unregisterPlugin] returns and leaves for a registered plugin
    whose [shutdown] does not reject with [null] or [undefined]. *)
Lemma unregisterPlugin_returns pluginName this plugin :
  map_get pluginName (plugins this) = Some plugin ->
  (forall v, shutdown plugin <> Some (Throw (thrown_nullish v))) ->
  exists out,
    PluginManager.unregisterPlugin pluginName this
    = (Return tt,
       {| plugins := map_delete pluginName (plugins this);
          hook_sets :=
            PluginManager.remove_hooks
              (map snd (PluginManager.entries plugin)) (hook_sets this);
          console_out := out |}).
Proof.
  intros Hget Hshut. unfold PluginManager.unregisterPlugin. rewrite Hget.
  destruct (shutdown plugin) as [[[]|[err|v]]|]; cbn;
    try (eexists; reflexivity).
  now elim (Hshut v).
Qed.

(** X18: unregistering a registered plugin succeeds when its [shutdown]
    is absent, returns or throws an error object, that is, does not
    reject with [null] or [undefined].  Afterwards [getPlugin] no longer
    finds it and finds under every other name what it found before; no
    hook set is empty and no hook set holds a function of the plugin, so
    [executeHook] never runs one of them again, whichever plugin
    registered it. *)
Theorem unregistered_plugin_leaves_no_hook :
  forall pluginName this plugin,
    PluginManager.getPlugin pluginName this = Some plugin ->
    (forall v, shutdown plugin <> Some (Throw (thrown_nullish v))) ->
    exists this',
      PluginManager.unregisterPlugin pluginName this = (Return tt, this') /\
      PluginManager.getPlugin pluginName this' = None /\
      (forall other, other <> pluginName ->
         PluginManager.getPlugin other this'
         = PluginManager.getPlugin other this) /\
      (forall hookName s,
          map_get hookName (hook_sets this') = Some s ->
          s <> [] /\
          forall k fn h,
            In (k, fn) (PluginManager.entries plugin) -> In h s ->
            hook_id h <> hook_id fn).
Proof.
  intros pluginName this plugin Hget Hshut.
  unfold PluginManager.getPlugin in *.
  destruct (unregisterPlugin_returns pluginName this plugin Hget Hshut)
    as (out & Hrun).
  eexists. split; [exact Hrun|]. cbn.
  split; [apply map_get_delete_same|].
  split; [intros other Ho; now apply map_get_delete_other|].
  intros hookName s Hs.
  destruct (remove_hooks_leaves _ _ _ _ Hs) as (Hne & Hall).
  split; [exact Hne|]. intros k fn h Hin Hh.
  rewrite Forall_forall in Hall.
  apply (kept_excludes _ _ _ (Hall h Hh)).
  change fn with (snd (k, fn)). now apply in_map.
Qed.

Lemma unregistered_plugin_leaves_no_hook_witness :
  exists this',
    PluginManager.unregisterPlugin "slack-notifier" example_manager
    = (Return tt, this') /\
    PluginManager.getPlugin "slack-notifier" this' = None /\
    PluginManager.executeHook "onLog" [js_string "ERROR"] this'
    = (Return [js_undefined], this').
Proof.
  destruct (unregistered_plugin_leaves_no_hook "slack-notifier"
              example_manager notifier_plugin eq_refl
              ltac:(intros v; discriminate))
    as (this' & Hrun & Hgone & _).
  exists this'. split; [exact Hrun|]. split; [exact Hgone|].
  vm_compute in Hrun. injection Hrun as <-. reflexivity.
Defined.

(** ** Registering and unregistering *)

Lemma remove_hooks_map_set fns k v :
  forall sets,
    filter (kept fns) v
    = filter (kept fns)
        (match map_get k sets with Some s => s | None => [] end) ->
    PluginManager.remove_hooks fns (map_set k v sets)
    = PluginManager.remove_hooks fns sets.
Proof.
  induction sets as [|[k' s'] sets IH]; cbn; intros H.
  - rewrite deleted_from_set, H. reflexivity.
  - destruct (String.eqb k k'); cbn; rewrite !deleted_from_set.
    + now rewrite H.
    + now rewrite (IH H).
Qed.

Lemma remove_hooks_add_hook fns sets entry :
  kept fns (snd entry) = false ->
  PluginManager.remove_hooks fns (PluginManager.add_hook sets entry)
  = PluginManager.remove_hooks fns sets.
Proof.
  intros Hgone. unfold PluginManager.add_hook, map_has.
  destruct (map_get (fst entry) sets) as [s|] eqn:Hs.
  - rewrite Hs. apply remove_hooks_map_set. rewrite Hs.
    unfold set_add. destruct (existsb _ s); [reflexivity|].
    rewrite filter_app. cbn. rewrite Hgone. apply app_nil_r.
  - rewrite map_get_set_same.
    rewrite remove_hooks_map_set.
    + apply remove_hooks_map_set. now rewrite Hs.
    + rewrite map_get_set_same. cbn. now rewrite Hgone.
Qed.

Lemma remove_hooks_fold fns :
  forall es sets,
    (forall e, In e es -> kept fns (snd e) = false) ->
    PluginManager.remove_hooks fns (fold_left PluginManager.add_hook es sets)
    = PluginManager.remove_hooks fns sets.
Proof.
  induction es as [|e es IH]; intros sets Hes; cbn; [reflexivity|].
  rewrite IH by (intros e' He'; apply Hes; now right).
  apply remove_hooks_add_hook, Hes. now left.
Qed.

Lemma filter_all {X : Type} (p : X -> bool) l :
  (forall x, In x l -> p x = true) -> filter p l = l.
Proof.
  induction l as [|x l IH]; intros H; cbn; [reflexivity|].
  rewrite (H x (or_introl eq_refl)), IH; [reflexivity|].
  intros y Hy. apply H. now right.
Qed.

Lemma remove_hooks_nothing fns :
  forall sets,
    (forall k s, In (k, s) sets ->
       s <> [] /\ forall h, In h s -> kept fns h = true) ->
    PluginManager.remove_hooks fns sets = sets.
Proof.
  induction sets as [|[k s] sets IH]; intros H; cbn; [reflexivity|].
  destruct (H k s (or_introl eq_refl)) as (Hne & Hall).
  rewrite deleted_from_set.
  rewrite (filter_all _ _ Hall).
  rewrite IH by (intros k' s' Hin; apply (H k' s'); now right).
  destruct s; [now elim Hne | reflexivity].
Qed.

(** What [registerPlugin] leaves for a plugin it accepts. *)
Lemma registerPlugin_returns plugin this n v :
  plugin_name plugin = Some n ->
  version plugin = Some v ->
  n <> ""%string -> v <> ""%string ->
  map_get n (plugins this) = None ->
  (forall err, initialize plugin <> Some (Throw err)) ->
  exists out,
    PluginManager.registerPlugin plugin this
    = (Return tt,
       {| plugins := map_set n plugin (plugins this);
          hook_sets :=
            fold_left PluginManager.add_hook (PluginManager.entries plugin)
              (hook_sets this);
          console_out := out |}).
Proof.
  intros Hn Hv Hne Hve Hfree Hinit.
  unfold PluginManager.registerPlugin, map_has. rewrite Hn, Hv. cbn.
  destruct n; [now elim Hne|]. destruct v; [now elim Hve|].
  cbn. rewrite Hfree.
  destruct (initialize plugin) as [[[]|err]|];
    [| now elim (Hinit err) |]; eexists; reflexivity.
Qed.

(** X19: registering a plugin and unregistering it again restores the
    plugins and the hook sets, when the name was free, no hook set was
    empty, none held a function of the plugin, [initialize] does not
    throw and [shutdown] does not reject with [null] or [undefined]. *)
Theorem register_then_unregister_restores_the_manager :
  forall plugin this n v,
    plugin_name plugin = Some n ->
    version plugin = Some v ->
    n <> "" -> v <> "" ->
    PluginManager.getPlugin n this = None ->
    (forall err, initialize plugin <> Some (Throw err)) ->
    (forall v, shutdown plugin <> Some (Throw (thrown_nullish v))) ->
    (forall k s, In (k, s) (hook_sets this) ->
       s <> [] /\
       forall h e, In h s -> In e (PluginManager.entries plugin) ->
                   hook_id h <> hook_id (snd e)) ->
    exists this1 this2,
      PluginManager.registerPlugin plugin this = (Return tt, this1) /\
      PluginManager.unregisterPlugin n this1 = (Return tt, this2) /\
      plugins this2 = plugins this /\
      hook_sets this2 = hook_sets this.
Proof.
  intros plugin this n v Hn Hv Hne Hve Hfree Hinit Hshut Hfresh.
  unfold PluginManager.getPlugin in Hfree.
  destruct (registerPlugin_returns plugin this n v Hn Hv Hne Hve Hfree Hinit)
    as (out1 & Hreg).
  destruct (unregisterPlugin_returns n
              {| plugins := map_set n plugin (plugins this);
                 hook_sets :=
                   fold_left PluginManager.add_hook
                     (PluginManager.entries plugin) (hook_sets this);
                 console_out := out1 |} plugin
              (map_get_set_same n plugin (plugins this)) Hshut)
    as (out2 & Hunreg).
  do 2 eexists. split; [exact Hreg|]. split; [exact Hunreg|]. cbn.
  split; [now apply map_delete_set_absent|].
  rewrite remove_hooks_fold.
  - apply remove_hooks_nothing. intros k s Hin.
    destruct (Hfresh k s Hin) as (Hnonempty & Hids).
    split; [exact Hnonempty|]. intros h Hh.
    unfold kept. apply forallb_forall. intros fn Hfn.
    apply in_map_iff in Hfn. destruct Hfn as (e & <- & He).
    unfold same_function.
    destruct (Nat.eqb (hook_id (snd e)) (hook_id h)) eqn:E; [|reflexivity].
    apply Nat.eqb_eq in E. now elim (Hids h e Hh He).
  - intros e He. unfold kept.
    destruct (forallb _ _) eqn:E; [|reflexivity].
    rewrite forallb_forall in E.
    specialize (E (snd e) (in_map snd _ _ He)).
    unfold same_function in E. now rewrite Nat.eqb_refl in E.
Qed.

Lemma register_then_unregister_restores_the_manager_witness :
  let this := snd (PluginManager.registerPlugin logger_plugin
                     PluginManager.new) in
  exists this1 this2,
    PluginManager.registerPlugin reporter_plugin this = (Return tt, this1) /\
    PluginManager.unregisterPlugin "reporter" this1 = (Return tt, this2) /\
    plugins this2 = plugins this /\
    hook_sets this2 = hook_sets this.
Proof.
  apply (register_then_unregister_restores_the_manager reporter_plugin
           (snd (PluginManager.registerPlugin logger_plugin PluginManager.new))
           "reporter" "2.0.0");
    try reflexivity; try discriminate.
  intros k s [H|[]]. injection H as <- <-. split; [discriminate|].
  intros h e [<-|[]] [<-|[]]. discriminate.
Defined.

(** * The request log of the rate limiter *)

Lemma sweep_leaves windowStart :
  forall entries clientId times,
    map_get clientId (AdaptiveRateLimiter.sweep windowStart entries)
    = Some times ->
    times <> [] /\ Forall (fun time => time > windowStart) times.
Proof.
  induction entries as [|[k ts] entries IH]; intros clientId times H;
    cbn in H; [discriminate|].
  destruct (filter (fun time => time >? windowStart) ts) as [|t ts'] eqn:Hf;
    [now apply (IH clientId)|].
  cbn in H. destruct (String.eqb clientId k); [|now apply (IH clientId)].
  injection H as <-. split; [discriminate|].
  rewrite <- Hf. apply Forall_forall. intros x Hx.
  apply filter_In in Hx. destruct Hx as (_ & Hx).
  apply Z.gtb_lt in Hx. lia.
Qed.

Lemma sweep_sweep w w' :
  w <= w' ->
  forall entries,
    AdaptiveRateLimiter.sweep w' (AdaptiveRateLimiter.sweep w entries)
    = AdaptiveRateLimiter.sweep w' entries.
Proof.
  intros Hle.
  assert (Hff : forall ts,
             filter (fun time => time >? w') (filter (fun time => time >? w) ts)
             = filter (fun time => time >? w') ts).
  { intros ts. rewrite filter_twice. apply filter_ext. intros t.
    destruct (t >? w') eqn:E'; [|apply andb_false_r].
    apply Z.gtb_lt in E'. rewrite andb_true_r. apply Z.gtb_lt. lia. }
  induction entries as [|[k ts] entries IH]; cbn; [reflexivity|].
  destruct (filter (fun time => time >? w) ts) as [|t ts'] eqn:Hf.
  - rewrite IH. rewrite <- (Hff ts), Hf. reflexivity.
  - cbn [AdaptiveRateLimiter.sweep]. rewrite <- Hf, Hff, IH. reflexivity.
Qed.

(** X20: after [cleanup] every client left in the request log has at
    least one request, all of them newer than [now - windowMs]; and a
    cleanup at a later time gives the same log whether or not an earlier
    cleanup ran before it, so cleaning twice at one time changes
    nothing more. *)
Theorem cleanup_keeps_only_recent_requests :
  forall now now' this,
    now <= now' ->
    (forall clientId times,
        map_get clientId (requests (AdaptiveRateLimiter.cleanup now this))
        = Some times ->
        times <> [] /\
        Forall (fun time => time > now - windowMs this) times) /\
    AdaptiveRateLimiter.cleanup now'
      (AdaptiveRateLimiter.cleanup now this)
    = AdaptiveRateLimiter.cleanup now' this.
Proof.
  intros now now' this Hle. split.
  - intros clientId times H. now apply (sweep_leaves _ _ _ _ H).
  - unfold AdaptiveRateLimiter.cleanup. cbn. f_equal.
    apply sweep_sweep. lia.
Qed.

Lemma cleanup_keeps_only_recent_requests_witness :
  requests (AdaptiveRateLimiter.cleanup 100000 example_limiter)
  = [("10.0.0.1", [50000; 70000])] /\
  AdaptiveRateLimiter.cleanup 120000
    (AdaptiveRateLimiter.cleanup 100000 example_limiter)
  = AdaptiveRateLimiter.cleanup 120000 example_limiter.
Proof.
  split; [reflexivity|].
  apply (cleanup_keeps_only_recent_requests 100000 120000 example_limiter).
  discriminate.
Defined.
